(** * Auditions bingo board: the shared-state engine of the server

    A shallow embedding of the socket server (board states keyed by member
    name, the bingo evaluator, the visibility filter [getPublicState], the
    three mutating handlers and the new-member board generator), followed by
    the properties of the specification checked against it.

    Conventions of the embedding:
    - a JS [number] used as a cell index is a [Z]; counters are [nat];
    - [Record<string, BoardState>] is a [gmap string BoardState];
    - a [Set<number>] is a [gset Z];
    - a JS object with optional fields is a record of [option]s, a field that
      can hold [null] is an [option];
    - every handler returns the new server state together with the list of
      effects it performed, in program order (file writes and emits);
    - [gameState[name]] is a lookup among the object's own keys: names that
      JavaScript would resolve on [Object.prototype] are outside the model. *)

From stdpp Require Import gmap strings list fin_maps sets sorting.

#[local] Set Warnings "-clear-no-such-hyp".
Local Open Scope Z_scope.

(** ** Data model *)

(** [interface BoardState]. [prediction : string[] | null]. *)
Record BoardState := mkBoardState {
  board : list string;
  selectedIndices : list Z;
  prediction : option (list string)
}.

(** The module-level bindings [members], [groups], [finalLineup] and
    [gameState]. Only the last two are ever reassigned or mutated. *)
Record Server := mkServer {
  members : list string;
  groups : list string;
  finalLineup : list string;
  gameState : gmap string BoardState
}.

(** ** Bingo logic *)

(** One inner loop of [calculateBingoCount]:
    [full = true; for (k = 0; k < 5; k++) if (!has(cell k)) { full = false; break }].
    [forallb] stops at the first missing cell, as the [break] does. *)
Definition lineFull (effectiveSelected : gset Z) (cell : Z → Z) : bool :=
  forallb (λ k, bool_decide (cell k ∈ effectiveSelected)) (seqZ 0 5).

(** [if (full) count++]. *)
Definition bump (full : bool) (count : nat) : nat :=
  if full then S count else count.

Definition calculateBingoCount (selected : list Z) : nat :=
  (* const effectiveSelected = new Set(selected); effectiveSelected.add(12) *)
  let effectiveSelected : gset Z := list_to_set selected ∪ {[12]} in
  let count := 0%nat in
  (* Rows *)
  let count :=
    foldl (λ count r, bump (lineFull effectiveSelected (λ c, r * 5 + c)) count)
          count (seqZ 0 5) in
  (* Cols *)
  let count :=
    foldl (λ count c, bump (lineFull effectiveSelected (λ r, r * 5 + c)) count)
          count (seqZ 0 5) in
  (* Diagonal 1 (TL-BR) *)
  let count := bump (lineFull effectiveSelected (λ i, i * 6)) count in
  (* Diagonal 2 (TR-BL) *)
  let count := bump (lineFull effectiveSelected (λ i, (i + 1) * 4)) count in
  count.

(** *** The evaluator as the specification words it

    [countCompletedLines] follows the specification's text, not the code: a
    fixed list of twelve lines of the 5x5 grid (index = row*5+col), a line
    being complete when each of its cells is selected, cell 12 counting as
    selected whatever the input. *)
Definition gridRows : list (list Z) :=
  (λ r, [r * 5 + 0; r * 5 + 1; r * 5 + 2; r * 5 + 3; r * 5 + 4]) <$> [0; 1; 2; 3; 4].

Definition gridCols : list (list Z) :=
  (λ c, [c; c + 5; c + 10; c + 15; c + 20]) <$> [0; 1; 2; 3; 4].

Definition gridDiagonals : list (list Z) :=
  [[0; 6; 12; 18; 24]; [4; 8; 12; 16; 20]].

Definition gridLines : list (list Z) := gridRows ++ gridCols ++ gridDiagonals.

Definition lineComplete (S : gset Z) (line : list Z) : bool :=
  forallb (λ i, bool_decide (i ∈ S ∪ {[12]})) line.

Definition countCompletedLines (S : gset Z) : nat :=
  length (List.filter (lineComplete S) gridLines).

(** ** The visibility filter *)

(** [!!state.prediction]: [null] is falsy, every array (even an empty one) is
    truthy. *)
Definition truthy (prediction : option (list string)) : bool :=
  match prediction with Some _ => true | None => false end.

(** The [predictionData] object. The fields [prediction] and [score] are not
    always present: [None] is an absent field, [Some None] is a field holding
    [null]. *)
Record PredictionData := mkPredictionData {
  hasPredicted : bool;
  pd_prediction : option (option (list string));
  pd_score : option nat
}.

(** One value of [publicState]: [{ ...state, bingoCount, prediction }], the
    spread's own [prediction] being overwritten by [predictionData]. *)
Record PublicEntry := mkPublicEntry {
  pub_board : list string;
  pub_selectedIndices : list Z;
  pub_bingoCount : nat;
  pub_prediction : PredictionData
}.

(** [state.prediction.filter(p => finalLineup.includes(p)).length], and 0
    when there is no prediction. *)
Definition scoreOf (finalLineup : list string) (prediction : option (list string)) : nat :=
  let score := 0%nat in
  match prediction with
  | Some ps => length (filter (λ p, p ∈ finalLineup) ps)
  | None => score
  end.

(** The body of the [for ... of Object.entries(gameState)] loop. *)
Definition publicEntry (finalLineup : list string) (requestingUser : option string)
    (member : string) (state : BoardState) : PublicEntry :=
  let predictionData := mkPredictionData (truthy (prediction state)) None None in
  let predictionData :=
    if bool_decide (0 < length finalLineup)%nat then
      (* Game over: calculate score *)
      mkPredictionData (truthy (prediction state))
                       (Some (prediction state))
                       (Some (scoreOf finalLineup (prediction state)))
    else if bool_decide (Some member = requestingUser) && truthy (prediction state) then
      (* Show my own *)
      mkPredictionData true (Some (prediction state)) None
    else predictionData in
  mkPublicEntry (board state) (selectedIndices state)
                (calculateBingoCount (selectedIndices state))
                predictionData.

Definition getPublicState (srv : Server) (requestingUser : option string)
    : gmap string PublicEntry :=
  map_imap (λ member state,
              Some (publicEntry (finalLineup srv) requestingUser member state))
           (gameState srv).

(** ** Events and effects *)

(** What the server sends. *)
Inductive Message :=
  | Init (members groups : list string) (gameState : gmap string PublicEntry)
         (finalLineup : list string)
  | PredictionUpdate (memberName : string) (hasPredicted : bool)
  | GameOver (finalLineup : list string) (gameState : gmap string PublicEntry)
  | UpdateState (memberName : string) (selectedIndices : list Z) (bingoCount : nat)
  | BingoAnnouncement (memberName : string) (count : nat).

(** What a handler does besides changing the in-memory state. A write that
    throws is caught and logged by the source; the effect records the call. *)
Inductive Effect :=
  | SaveGameState (gs : gmap string BoardState) (* saveGameState() *)
  | WriteLineupFile (lineup : list string)      (* writeFileSync(LINEUP_FILE, ..) *)
  | SocketEmit (msg : Message)                  (* socket.emit: this connection *)
  | IoEmit (msg : Message).                     (* io.emit: every connection *)

(** What a connection delivers to the server. [lineup] may be missing from
    the payload ([data.lineup && ...]). *)
Inductive ClientEvent :=
  | Connection
  | Join (name : string)
  | SubmitPrediction (memberName : string) (prediction : list string)
  | SubmitFinalLineup (lineup : option (list string))
  | ToggleCell (memberName : string) (index : Z)
  | Disconnect.

Definition isBroadcast (e : Effect) : bool :=
  match e with IoEmit _ => true | _ => false end.

Definition isWrite (e : Effect) : bool :=
  match e with SaveGameState _ | WriteLineupFile _ => true | _ => false end.

(** ** Handlers *)

Definition initMessage (srv : Server) (requestingUser : option string) : Message :=
  Init (members srv) (groups srv) (getPublicState srv requestingUser) (finalLineup srv).

(** The unconditional [socket.emit('init', ...)] in the connection callback. *)
Definition onConnection (srv : Server) : Server * list Effect :=
  (srv, [SocketEmit (initMessage srv None)]).

Definition onJoin (name : string) (srv : Server) : Server * list Effect :=
  (srv, [SocketEmit (initMessage srv (Some name))]).

Definition setGameState (srv : Server) (gs : gmap string BoardState) : Server :=
  mkServer (members srv) (groups srv) (finalLineup srv) gs.

Definition setFinalLineup (srv : Server) (lineup : list string) : Server :=
  mkServer (members srv) (groups srv) lineup (gameState srv).

Definition onSubmitPrediction (memberName : string) (picks : list string)
    (srv : Server) : Server * list Effect :=
  match gameState srv !! memberName with
  | Some st =>
      if negb (truthy (prediction st)) then
        if bool_decide (length picks = 12%nat) then
          let gs' := <[memberName := mkBoardState (board st) (selectedIndices st) (Some picks)]>
                       (gameState srv) in
          (setGameState srv gs',
           [SaveGameState gs'; IoEmit (PredictionUpdate memberName true)])
        else (srv, [])
      else (srv, [])
  | None => (srv, [])
  end.

Definition onSubmitFinalLineup (lineup : option (list string)) (srv : Server)
    : Server * list Effect :=
  match lineup with
  | Some lineup =>
      if bool_decide (0 < length lineup)%nat then
        let srv' := setFinalLineup srv lineup in
        (srv', [WriteLineupFile lineup;
                IoEmit (GameOver lineup (getPublicState srv' None))])
      else (srv, [])
  | None => (srv, [])
  end.

(** [Array.prototype.indexOf]: the first position holding [x], or -1. *)
Fixpoint indexOf (l : list Z) (x : Z) : Z :=
  match l with
  | [] => -1
  | y :: l' =>
      if bool_decide (y = x) then 0
      else let k := indexOf l' x in if bool_decide (k = -1) then -1 else k + 1
  end.

(** The in-place update of [memberState.selectedIndices] by [toggleCell]:
    [splice(selectedIdx, 1)] when found, [push(index)] otherwise. *)
Definition toggleIndex (selectedIndices : list Z) (index : Z) : list Z :=
  let selectedIdx := indexOf selectedIndices index in
  if bool_decide (-1 < selectedIdx) then
    delete (Z.to_nat selectedIdx) selectedIndices
  else selectedIndices ++ [index].

Definition onToggleCell (memberName : string) (index : Z) (srv : Server)
    : Server * list Effect :=
  match gameState srv !! memberName with
  | Some memberState =>
      let oldBingoCount := calculateBingoCount (selectedIndices memberState) in
      let selected' := toggleIndex (selectedIndices memberState) index in
      let gs' := <[memberName := mkBoardState (board memberState) selected'
                                              (prediction memberState)]>
                   (gameState srv) in
      let newBingoCount := calculateBingoCount selected' in
      (setGameState srv gs',
       [IoEmit (UpdateState memberName selected' newBingoCount)]
       ++ (if bool_decide (oldBingoCount < newBingoCount)%nat
           then [IoEmit (BingoAnnouncement memberName newBingoCount)] else [])
       ++ [SaveGameState gs'])
  | None => (srv, [])
  end.

Definition handle (ev : ClientEvent) (srv : Server) : Server * list Effect :=
  match ev with
  | Connection => onConnection srv
  | Join name => onJoin name srv
  | SubmitPrediction memberName picks => onSubmitPrediction memberName picks srv
  | SubmitFinalLineup lineup => onSubmitFinalLineup lineup srv
  | ToggleCell memberName index => onToggleCell memberName index srv
  | Disconnect => (srv, [])
  end.

(** Events are handled one at a time, each to completion. *)
Fixpoint run (evs : list ClientEvent) (srv : Server) : Server * list Effect :=
  match evs with
  | [] => (srv, [])
  | ev :: evs =>
      let '(srv1, out1) := handle ev srv in
      let '(srv2, out2) := run evs srv1 in
      (srv2, out1 ++ out2)
  end.

(** ** New-member board generation *)

(** [[a[i], a[j]] = [a[j], a[i]]]. The loop below only calls it with both
    indices inside the array. *)
Definition swap (a : list string) (i j : nat) : list string :=
  match a !! i, a !! j with
  | Some ai, Some aj => <[j := ai]> (<[i := aj]> a)
  | _, _ => a
  end.

Section BoardGenerator.

(** The source of randomness: [draw i] is the value of
    [Math.floor(Math.random() * (i + 1))] in the iteration [i] of the shuffle
    (one call per iteration). In the source it is at most [i]. *)
Variable draw : nat → nat.

(** [for (let i = n; i > 0; i--) { const j = draw i; swap i j }], the
    Fisher-Yates loop of the new-member branch, entered with
    [n = currentTerms.length - 1]. *)
Fixpoint fisherYates (i : nat) (currentTerms : list string) : list string :=
  match i with
  | O => currentTerms
  | S i' => fisherYates i' (swap currentTerms i (draw i))
  end.

(** The [boardTerms] of a new member: 24 shuffled terms when the pool has at
    least 24, the whole pool otherwise; then [splice(12, 0, "FREE SPACE")] when
    at least 12 terms were taken, [push("FREE SPACE")] otherwise. *)
Definition newBoard (terms : list string) : list string :=
  let currentTerms := terms in
  let boardTerms :=
    if bool_decide (24 ≤ length currentTerms)%nat then
      take 24 (fisherYates (length currentTerms - 1) currentTerms)
    else currentTerms in
  (* Insert Free Space *)
  if bool_decide (12 ≤ length boardTerms)%nat then
    take 12 boardTerms ++ "FREE SPACE"%string :: drop 12 boardTerms
  else boardTerms ++ ["FREE SPACE"%string].

Definition newMemberState (terms : list string) : BoardState :=
  mkBoardState (newBoard terms) [] None.

End BoardGenerator.

(** ** State predicates and sample data used by the statements *)

(** The selection as the set the data model speaks of. *)
Definition selection (st : BoardState) : gset Z := list_to_set (selectedIndices st).

(** No member's [selectedIndices] holds an index twice. *)
Definition validState (srv : Server) : Prop :=
  map_Forall (λ _ st, NoDup (selectedIndices st)) (gameState srv).

(** Every stored index is a cell of the 5x5 grid. *)
Definition inRange (srv : Server) : Prop :=
  map_Forall (λ _ st, Forall (λ i, 0 ≤ i ≤ 24) (selectedIndices st)) (gameState srv).

Definition toggleInRange (ev : ClientEvent) : Prop :=
  match ev with ToggleCell _ index => 0 ≤ index ≤ 24 | _ => True end.

(** The stored prediction of a member: [None] when the member has no
    BoardState, [Some None] when it has one without a prediction. *)
Definition predictionOf (srv : Server) (m : string) : option (option (list string)) :=
  prediction <$> gameState srv !! m.

Definition sampleTerms : list string :=
  ["t00"; "t01"; "t02"; "t03"; "t04"; "t05"; "t06"; "t07"; "t08"; "t09"; "t10"; "t11";
   "t12"; "t13"; "t14"; "t15"; "t16"; "t17"; "t18"; "t19"; "t20"; "t21"; "t22"; "t23";
   "t24"; "t25"]%string.

Definition sampleGroups : list string :=
  ["g00"; "g01"; "g02"; "g03"; "g04"; "g05"; "g06"; "g07"; "g08"; "g09"; "g10"; "g11";
   "g12"; "g13"]%string.

Definition samplePicks : list string := take 12 sampleGroups.

Definition aliceState : BoardState := newMemberState (λ i, i `div` 2)%nat sampleTerms.
Definition bobState : BoardState := newMemberState (λ i, i) sampleTerms.

(** A server just after start-up with two new members and no saved state. *)
Definition sampleServer : Server :=
  mkServer ["alice"; "bob"]%string sampleGroups []
    (<["alice"%string := aliceState]> (<["bob"%string := bobState]> ∅)).

(** Number of entries of [ps] equal to [g]. *)
Definition occurrences (g : string) (ps : list string) : nat :=
  length (filter (λ p, p = g) ps).

(** Number of lineup entries that some prediction entry matches. *)
Definition matchedLineupEntries (finalLineup ps : list string) : nat :=
  length (filter (λ g, g ∈ ps) finalLineup).

Definition otherPicks : list string := drop 2 sampleGroups.

(** Twelve picks naming the same group twice. *)
Definition duplicatedPicks : list string := "g00"%string :: take 11 sampleGroups.

(** No broadcast of the effect list is performed before a file write has
    been performed ([written]: a write has already happened). *)
Fixpoint writeBeforeBroadcast (written : bool) (out : list Effect) : bool :=
  match out with
  | [] => true
  | e :: out' =>
      if isBroadcast e then written && writeBeforeBroadcast written out'
      else writeBeforeBroadcast (written || isWrite e) out'
  end.

Definition sampleToggles : list ClientEvent :=
  [ToggleCell "alice" 0; ToggleCell "bob" 24; ToggleCell "alice" 6; ToggleCell "alice" 0;
   ToggleCell "carol" 3; ToggleCell "alice" 18; ToggleCell "alice" 24].

(** An event that is no 12-pick submission for [m]. *)
Definition notAccepting (m : string) (ev : ClientEvent) : Prop :=
  match ev with
  | SubmitPrediction m' picks => m' = m → length picks ≠ 12%nat
  | _ => True
  end.

Definition laterEvents : list ClientEvent :=
  [SubmitPrediction "alice" otherPicks; ToggleCell "alice" 3;
   SubmitFinalLineup (Some otherPicks); Join "bob"; SubmitPrediction "alice" otherPicks].

Definition quietEvents : list ClientEvent :=
  [SubmitPrediction "alice" (take 11 sampleGroups); SubmitPrediction "bob" samplePicks;
   ToggleCell "alice" 1; Connection; SubmitPrediction "alice" sampleGroups].

(** The sample server after a first reveal. *)
Definition revealedServer : Server :=
  (onSubmitFinalLineup (Some samplePicks) sampleServer).1.

(** The sample server after alice's prediction, and after the reveal that
    follows it. *)
Definition predictedServer : Server :=
  (onSubmitPrediction "alice" samplePicks sampleServer).1.

Definition predictedRevealed : Server :=
  (onSubmitFinalLineup (Some otherPicks) predictedServer).1.

(** The sample server after alice submitted [duplicatedPicks] and the lineup
    was revealed as the single group "g00". *)
Definition duplicateScoreServer : Server :=
  (run [SubmitPrediction "alice" duplicatedPicks; SubmitFinalLineup (Some ["g00"%string])]
       sampleServer).1.

(** A pool of 24 lines that are all the same term. *)
Definition repeatedTerms : list string := replicate 24 "same"%string.

(** ** Start-up: merging the saved state with the roster *)

(** The body of [members.forEach]: a member found in the loaded state keeps
    its saved BoardState (a falsy prediction becoming [null]); any other member
    gets a new board, an empty selection and no prediction. [draw] is the
    random source of this member's shuffle. *)
Definition initMember (loadedState : gmap string BoardState) (terms : list string)
    (draw : nat → nat) (gameState : gmap string BoardState) (member : string)
    : gmap string BoardState :=
  match loadedState !! member with
  | Some st =>
      (* Reuse existing board and state *)
      <[member := mkBoardState (board st) (selectedIndices st)
                    (if truthy (prediction st) then prediction st else None)]> gameState
  | None =>
      (* New member: Generate new board *)
      <[member := newMemberState draw terms]> gameState
  end.

(** [members.forEach(...)] from the roster entry number [k] on; [draws k] is
    the random source used while the entry number [k] is handled. *)
Fixpoint initMembers (loadedState : gmap string BoardState) (terms : list string)
    (draws : nat → nat → nat) (k : nat) (roster : list string)
    (gameState : gmap string BoardState) : gmap string BoardState :=
  match roster with
  | [] => gameState
  | member :: roster' =>
      initMembers loadedState terms draws (S k) roster'
                  (initMember loadedState terms (draws k) gameState member)
  end.

(** The module initialisation: [gameState] starts empty, the roster is merged
    with the loaded state, [finalLineup] is read from the lineup file when it
    exists, and the state is saved at once. *)
Definition startServer (roster terms groupPool : list string)
    (lineupFile : option (list string)) (loadedState : gmap string BoardState)
    (draws : nat → nat → nat) : Server * list Effect :=
  let finalLineup := match lineupFile with Some lineup => lineup | None => [] end in
  let gameState := initMembers loadedState terms draws 0 roster ∅ in
  (mkServer roster groupPool finalLineup gameState, [SaveGameState gameState]).

(** ** The write calls of an effect list *)

(** The arguments of the latest [saveGameState()] call and of the latest
    [writeFileSync(LINEUP_FILE, ...)] call, [seen] being those of the calls made
    before. These are the calls, whether or not the write succeeds (a failure is
    caught and logged by the source); what the files hold afterwards, once
    serialised and read back, is not described. *)
Definition noteWriteCall (seen : option (gmap string BoardState) * option (list string))
    (e : Effect) : option (gmap string BoardState) * option (list string) :=
  match e with
  | SaveGameState gs => (Some gs, seen.2)
  | WriteLineupFile lineup => (seen.1, Some lineup)
  | _ => seen
  end.

Definition lastWriteCalls (out : list Effect)
    (seen : option (gmap string BoardState) * option (list string))
    : option (gmap string BoardState) * option (list string) :=
  foldl noteWriteCall seen out.

(** The names a plain object inherits from [Object.prototype]: for these,
    [gameState[name]] is not [undefined] even when no member has that name. *)
Definition objectPrototypeKeys : list string :=
  ["constructor"; "__defineGetter__"; "__defineSetter__"; "hasOwnProperty";
   "__lookupGetter__"; "__lookupSetter__"; "isPrototypeOf"; "propertyIsEnumerable";
   "toString"; "valueOf"; "__proto__"; "toLocaleString"]%string.

(** The messages of an effect list, in the order they were emitted. *)
Definition messages (out : list Effect) : list Effect :=
  List.filter (λ e, negb (isWrite e)) out.

Definition isAnnouncement (e : Effect) : bool :=
  match e with IoEmit (BingoAnnouncement _ _) => true | _ => false end.

(** ** Relations between two servers used by the statements *)

(** Two BoardStates that differ at most in the contents of a prediction that
    both have or both lack. *)
Definition samePublicPart (a b : BoardState) : Prop :=
  board a = board b ∧ selectedIndices a = selectedIndices b
  ∧ truthy (prediction a) = truthy (prediction b).

(** Two servers before the reveal that differ at most in the contents of the
    prediction of [m]. *)
Definition differOnlyInPredictionOf (m : string) (srv1 srv2 : Server) : Prop :=
  members srv1 = members srv2 ∧ groups srv1 = groups srv2
  ∧ finalLineup srv1 = [] ∧ finalLineup srv2 = []
  ∧ (∀ k, k ≠ m → gameState srv1 !! k = gameState srv2 !! k)
  ∧ option_Forall2 samePublicPart (gameState srv1 !! m) (gameState srv2 !! m).

(** An event that neither reveals the lineup nor is a join under the name [m]. *)
Definition keepsHidden (m : string) (ev : ClientEvent) : Prop :=
  match ev with
  | Join name => name ≠ m
  | SubmitFinalLineup (Some (_ :: _)) => False
  | _ => True
  end.

(** Every stored prediction holds exactly 12 picks. *)
Definition predictionsComplete (srv : Server) : Prop :=
  map_Forall (λ _ st, ∀ p, prediction st = Some p → length p = 12%nat) (gameState srv).


(** The member an event acts on. *)
Definition addressee (ev : ClientEvent) : option string :=
  match ev with
  | SubmitPrediction memberName _ | ToggleCell memberName _ => Some memberName
  | _ => None
  end.

(** An event whose member name, if it has one, is none of those resolved on
    [Object.prototype]: the events for which looking [memberName] up among the
    members is what [gameState[memberName]] does. *)
Definition namesServed (ev : ClientEvent) : Prop :=
  match addressee ev with
  | Some memberName => memberName ∉ objectPrototypeKeys
  | None => True
  end.

(** [predictedServer] with other picks stored for alice. *)
Definition otherwisePredictedServer : Server :=
  setGameState predictedServer
    (<["alice"%string := mkBoardState (board aliceState) [] (Some otherPicks)]>
       (gameState predictedServer)).

Definition hiddenEvents : list ClientEvent :=
  [Connection; ToggleCell "alice" 4; Join "bob"; SubmitPrediction "alice" sampleGroups;
   SubmitPrediction "bob" otherPicks; SubmitFinalLineup (Some []); ToggleCell "bob" 12;
   Disconnect].

(** ** The browser client (public/script.js): its copy of the state *)

(** One value of the client's [gameState]: what [init] delivered, updated in
    place by the later messages. [prediction] is the [predictionData] object. *)
Record ClientEntry := mkClientEntry {
  ce_board : list string;
  ce_selectedIndices : list Z;
  ce_bingoCount : nat;
  ce_prediction : option PredictionData
}.

(** The script's top-level variables that the message handlers read or write
    ([currentUser] is only read by them). *)
Record ClientState := mkClientState {
  c_members : list string;
  c_groups : list string;
  c_gameState : gmap string ClientEntry;
  c_finalLineup : list string;
  c_currentUser : option string
}.

(** A received entry of the server's view, as the client holds it. *)
Definition ofPublicEntry (e : PublicEntry) : ClientEntry :=
  mkClientEntry (pub_board e) (pub_selectedIndices e) (pub_bingoCount e)
                (Some (pub_prediction e)).

(** [socket.on('init', ...)]: the four variables are replaced. *)
Definition clientOnInit (ms gs : list string) (view : gmap string PublicEntry)
    (fl : list string) (c : ClientState) : ClientState :=
  mkClientState ms gs (ofPublicEntry <$> view) fl (c_currentUser c).

(** [socket.on('updateState', ...)]: for a known member the selection is
    replaced, and the count when the message holds one. *)
Definition clientOnUpdateState (memberName : string) (selectedIndices : list Z)
    (bingoCount : option nat) (c : ClientState) : ClientState :=
  match c_gameState c !! memberName with
  | Some e =>
      mkClientState (c_members c) (c_groups c)
        (<[memberName := mkClientEntry (ce_board e) selectedIndices
                           (match bingoCount with Some n => n | None => ce_bingoCount e end)
                           (ce_prediction e)]> (c_gameState c))
        (c_finalLineup c) (c_currentUser c)
  | None => c
  end.

(** [socket.on('predictionUpdate', ...)]: for a known member the flag of its
    [prediction] object (created when missing) is set to [true], whatever the
    message says; the page is reloaded when the member is the current user.
    The boolean of the result tells whether [location.reload()] was called. *)
Definition clientOnPredictionUpdate (memberName : string) (hasPredicted : bool)
    (c : ClientState) : ClientState * bool :=
  match c_gameState c !! memberName with
  | Some e =>
      let data :=
        match ce_prediction e with
        | Some data => mkPredictionData true (pd_prediction data) (pd_score data)
        | None => mkPredictionData true None None
        end in
      (mkClientState (c_members c) (c_groups c)
         (<[memberName := mkClientEntry (ce_board e) (ce_selectedIndices e)
                            (ce_bingoCount e) (Some data)]> (c_gameState c))
         (c_finalLineup c) (c_currentUser c),
       bool_decide (Some memberName = c_currentUser c))
  | None => (c, false)
  end.

(** [socket.on('gameOver', ...)]: the lineup is replaced and, for every member
    of the received view that the client knows, the [prediction] object is
    replaced by the received one. *)
Definition clientOnGameOver (fl : list string) (publicState : gmap string PublicEntry)
    (c : ClientState) : ClientState :=
  mkClientState (c_members c) (c_groups c)
    (map_fold (λ m pe gs,
                 match gs !! m with
                 | Some e => <[m := mkClientEntry (ce_board e) (ce_selectedIndices e)
                                      (ce_bingoCount e) (Some (pub_prediction pe))]> gs
                 | None => gs
                 end)
              (c_gameState c) publicState)
    fl (c_currentUser c).

(** The handler of each message; [bingoAnnouncement] only shows a
    notification. *)
Definition deliver (msg : Message) (c : ClientState) : ClientState * bool :=
  match msg with
  | Init ms gs view fl => (clientOnInit ms gs view fl c, false)
  | UpdateState m sel count => (clientOnUpdateState m sel (Some count) c, false)
  | BingoAnnouncement _ _ => (c, false)
  | PredictionUpdate m flag => clientOnPredictionUpdate m flag c
  | GameOver fl view => (clientOnGameOver fl view c, false)
  end.

(** A client receives every broadcast of an effect list, in order; the
    boolean tells whether one of them made it reload. *)
Definition deliverBroadcasts (out : list Effect) (c : ClientState) : ClientState * bool :=
  foldl (λ acc e,
           match e with
           | IoEmit msg => let r := deliver msg acc.1 in (r.1, acc.2 || r.2)
           | _ => acc
           end)
        (c, false) out.

(** The client holds the server's public view for its user, with the
    roster, the groups and the lineup. *)
Definition inSync (c : ClientState) (srv : Server) : Prop :=
  c_members c = members srv ∧ c_groups c = groups srv
  ∧ c_finalLineup c = finalLineup srv
  ∧ c_gameState c = ofPublicEntry <$> getPublicState srv (c_currentUser c).

(** The events after which the broadcasts alone keep a client of [viewer] up
    to date: all but an accepted prediction of the viewer itself, or one
    accepted after the reveal. *)
Definition broadcastSuffices (viewer : option string) (srv : Server) (ev : ClientEvent)
    : Prop :=
  match ev with
  | SubmitPrediction m picks =>
      (onSubmitPrediction m picks srv).2 = [] ∨ (finalLineup srv = [] ∧ viewer ≠ Some m)
  | _ => True
  end.

Fixpoint broadcastsSuffice (viewer : option string) (srv : Server)
    (evs : list ClientEvent) : Prop :=
  match evs with
  | [] => True
  | ev :: evs' =>
      broadcastSuffices viewer srv ev ∧ broadcastsSuffice viewer (handle ev srv).1 evs'
  end.

(** The client of a connection that received the server's [init] for [user]. *)
Definition clientAfterInit (user : option string) (srv : Server) : ClientState :=
  clientOnInit (members srv) (groups srv) (getPublicState srv user) (finalLineup srv)
               (mkClientState [] [] ∅ [] user).

(** *** The leaderboard of [renderPredictionSection] *)

(** [(gameState[m].prediction || {}).score || 0]. *)
Definition scoreShown (e : ClientEntry) : nat :=
  match ce_prediction e with
  | Some data => match pd_score data with Some score => score | None => 0%nat end
  | None => 0%nat
  end.

(** [members.map(m => ({ name: m, score: ... }))]; reading the entry of a
    member the client does not know throws ([None]). *)
Fixpoint memberScores (gs : gmap string ClientEntry) (ms : list string)
    : option (list (string * nat)) :=
  match ms with
  | [] => Some []
  | m :: ms' =>
      match gs !! m with
      | Some e => cons (m, scoreShown e) <$> memberScores gs ms'
      | None => None
      end
  end.

(** [.sort((a, b) => b.score - a.score)]: by decreasing score. The sort of
    arrays is stable, so entries with the same score keep their order; this is
    the insertion of an entry in front of an already sorted tail. *)
Fixpoint insertByScore (x : string * nat) (l : list (string * nat))
    : list (string * nat) :=
  match l with
  | [] => [x]
  | y :: l' => if (y.2 <=? x.2)%nat then x :: l else y :: insertByScore x l'
  end.

Definition sortByScore (l : list (string * nat)) : list (string * nat) :=
  foldr insertByScore [] l.

Definition leaderboard (c : ClientState) : option (list (string * nat)) :=
  sortByScore <$> memberScores (c_gameState c) (c_members c).


(** ** Reading the list files *)

Section LoadFile.

(** A character of a JavaScript string, the line feed, and the characters
    that [trim()] strips (white space and line terminators). *)
Context {char : Type} `{EqDecision char}.
Variable newline : char.
Variable isSpace : char → bool.

(** [content.split('\n')]: the pieces between the line feeds; an empty string
    gives one empty piece. *)
Fixpoint splitLines (content : list char) : list (list char) :=
  match content with
  | [] => [[]]
  | c :: rest =>
      if decide (c = newline) then [] :: splitLines rest
      else match splitLines rest with
           | line :: lines => (c :: line) :: lines
           | [] => [[c]]
           end
  end.

Fixpoint trimStart (line : list char) : list char :=
  match line with
  | c :: line' => if isSpace c then trimStart line' else line
  | [] => []
  end.

Definition trimEnd (line : list char) : list char :=
  reverse (trimStart (reverse line)).

(** [line.trim()]. *)
Definition trim (line : list char) : list char := trimEnd (trimStart line).

(** [loadFile(filePath)]: the trimmed, non-empty lines of the file, and the
    empty list when reading the file throws ([None]). *)
Definition loadFile (read : option (list char)) : list (list char) :=
  match read with
  | Some content =>
      filter (λ line, (0 < length line)%nat) (trim <$> splitLines content)
  | None => []
  end.


(** A line whose first character, if any, is not stripped by [trim()]. *)
Definition startsClean (line : list char) : Prop :=
  match line with
  | c :: _ => isSpace c = false
  | [] => True
  end.

(** A line that [loadFile] gives back as it is: not empty, without line feed,
    neither beginning nor ending with a stripped character. *)
Definition cleanLine (line : list char) : Prop :=
  line ≠ [] ∧ (newline ∉ line) ∧ startsClean line ∧ startsClean (reverse line).

End LoadFile.

(** Code units 9 to 13 and 32 taken as the stripped characters, 10 as the
    line feed: enough for the samples. *)
Definition asciiSpace (c : nat) : bool :=
  bool_decide ((9 ≤ c)%nat ∧ (c ≤ 13)%nat ∨ c = 32%nat).

(** The file ["  rock \n\njazz\n"] and the lineup [["rock"; "jazz band"]]. *)
Definition sampleContent : list nat :=
  [32; 32; 114; 111; 99; 107; 32; 10; 10; 106; 97; 122; 122; 10]%nat.


(** ** Theorems: bingo evaluator *)

Lemma foldl_bump_filter {A} (f : A → bool) (l : list A) (n : nat) :
  foldl (λ count x, bump (f x) count) n l = (n + length (List.filter f l))%nat.
Proof.
  revert n. induction l as [|x l IH]; intros n; simpl.
  - lia.
  - rewrite IH. destruct (f x); simpl; lia.
Qed.

(** The code's four loops visit exactly the twelve lines of [gridLines]. *)
Lemma calculateBingoCount_refines (selected : list Z) :
  calculateBingoCount selected = countCompletedLines (list_to_set selected).
Proof.
  unfold countCompletedLines.
  rewrite <- (Nat.add_0_l (length _)), <- foldl_bump_filter.
  reflexivity.
Qed.

Lemma lineComplete_free (S : gset Z) (line : list Z) :
  lineComplete (S ∪ {[12]}) line = lineComplete S line.
Proof.
  unfold lineComplete.
  by rewrite <- (assoc_L (∪)), (idemp_L (∪)).
Qed.

Lemma countCompletedLines_free (S : gset Z) :
  countCompletedLines S = countCompletedLines (S ∪ {[12]}).
Proof.
  unfold countCompletedLines. f_equal.
  apply List.filter_ext. intros line. symmetry. apply lineComplete_free.
Qed.

Lemma countCompletedLines_le (S : gset Z) : (countCompletedLines S ≤ 12)%nat.
Proof.
  unfold countCompletedLines.
  etransitivity; [apply List.filter_length_le|]. reflexivity.
Qed.

Lemma calculateBingoCount_set (sel1 sel2 : list Z) :
  (∀ i, i ∈ sel1 ↔ i ∈ sel2) →
  calculateBingoCount sel1 = calculateBingoCount sel2.
Proof.
  intros H. rewrite !calculateBingoCount_refines. f_equal.
  apply set_eq. intros i. rewrite !elem_of_list_to_set. apply H.
Qed.

(** ** Theorems: toggling a cell *)

Lemma indexOf_ge (l : list Z) (x : Z) : -1 ≤ indexOf l x.
Proof.
  induction l as [|y l IH]; simpl; [lia|].
  repeat case_bool_decide; lia.
Qed.

(** [toggleIndex] removes the first occurrence of the index, or appends it. *)
Lemma toggleIndex_cons (y : Z) (l : list Z) (x : Z) :
  toggleIndex (y :: l) x = if bool_decide (y = x) then l else y :: toggleIndex l x.
Proof.
  unfold toggleIndex. simpl.
  pose proof (indexOf_ge l x) as Hge.
  destruct (bool_decide (y = x)); [reflexivity|].
  destruct (bool_decide (indexOf l x = -1)) eqn:Hk.
  - apply bool_decide_eq_true in Hk. rewrite Hk. reflexivity.
  - apply bool_decide_eq_false in Hk.
    rewrite !bool_decide_eq_true_2 by lia.
    replace (Z.to_nat (indexOf l x + 1)) with (S (Z.to_nat (indexOf l x))) by lia.
    reflexivity.
Qed.

Lemma toggleIndex_nil (x : Z) : toggleIndex [] x = [x].
Proof. reflexivity. Qed.

Lemma toggleIndex_notin (l : list Z) (x : Z) : x ∉ l → toggleIndex l x = l ++ [x].
Proof.
  induction l as [|y l IH]; intros Hx; [reflexivity|].
  apply not_elem_of_cons in Hx as [Hne Hx].
  rewrite toggleIndex_cons, bool_decide_eq_false_2 by congruence.
  rewrite IH by assumption. reflexivity.
Qed.

Lemma elem_of_toggleIndex_ne (l : list Z) (x y : Z) :
  y ≠ x → y ∈ toggleIndex l x ↔ y ∈ l.
Proof.
  intros Hne. induction l as [|z l IH].
  - rewrite toggleIndex_nil. set_solver.
  - rewrite toggleIndex_cons. case_bool_decide; set_solver.
Qed.

Lemma elem_of_toggleIndex_eq (l : list Z) (x : Z) :
  NoDup l → x ∈ toggleIndex l x ↔ x ∉ l.
Proof.
  induction 1 as [|z l Hz Hl IH].
  - rewrite toggleIndex_nil. set_solver.
  - rewrite toggleIndex_cons. case_bool_decide; set_solver.
Qed.

Lemma NoDup_toggleIndex (l : list Z) (x : Z) : NoDup l → NoDup (toggleIndex l x).
Proof.
  induction 1 as [|z l Hz Hl IH].
  - rewrite toggleIndex_nil. apply NoDup_singleton.
  - rewrite toggleIndex_cons. case_bool_decide as Hzx; [assumption|].
    apply NoDup_cons. split; [|assumption].
    rewrite elem_of_toggleIndex_ne; congruence.
Qed.

Lemma toggleIndex_twice (l : list Z) (x : Z) :
  NoDup l → toggleIndex (toggleIndex l x) x ≡ₚ l.
Proof.
  induction 1 as [|z l Hz Hl IH].
  - by rewrite toggleIndex_nil, toggleIndex_cons, bool_decide_eq_true_2.
  - rewrite toggleIndex_cons. case_bool_decide as Hzx.
    + subst z. rewrite toggleIndex_notin by assumption.
      symmetry. apply Permutation_cons_append.
    + rewrite toggleIndex_cons, bool_decide_eq_false_2 by assumption.
      by f_equiv.
Qed.

Lemma Forall_toggleIndex (P : Z → Prop) (l : list Z) (x : Z) :
  P x → Forall P l → Forall P (toggleIndex l x).
Proof.
  intros Hx. induction 1 as [|z l Hz Hl IH].
  - rewrite toggleIndex_nil. by constructor.
  - rewrite toggleIndex_cons. case_bool_decide; [assumption|by constructor].
Qed.

Lemma onToggleCell_Some (srv : Server) (m : string) (index : Z) (st : BoardState) :
  gameState srv !! m = Some st →
  gameState (onToggleCell m index srv).1 =
    <[m := mkBoardState (board st) (toggleIndex (selectedIndices st) index)
                        (prediction st)]> (gameState srv)
  ∧ finalLineup (onToggleCell m index srv).1 = finalLineup srv.
Proof. intros H. unfold onToggleCell. rewrite H. done. Qed.

Lemma onToggleCell_None (srv : Server) (m : string) (index : Z) :
  gameState srv !! m = None → onToggleCell m index srv = (srv, []).
Proof. intros H. unfold onToggleCell. by rewrite H. Qed.

(** A property of every member's [selectedIndices] that each toggle of the
    event preserves is preserved by the handler of the event. *)
Lemma handle_selection_inv (P : list Z → Prop) (ev : ClientEvent) (srv : Server) :
  (∀ m i l, ev = ToggleCell m i → P l → P (toggleIndex l i)) →
  map_Forall (λ _ st, P (selectedIndices st)) (gameState srv) →
  map_Forall (λ _ st, P (selectedIndices st)) (gameState (handle ev srv).1).
Proof.
  intros Htog Hinv. destruct ev as [|name|m picks|lineup|m index|]; simpl; try assumption.
  - unfold onSubmitPrediction.
    destruct (gameState srv !! m) as [st|] eqn:Hm; [|assumption].
    destruct (negb _); [|assumption].
    case_bool_decide; [|assumption]. simpl.
    apply map_Forall_insert_2; [|assumption].
    apply (map_Forall_lookup_1 _ _ _ _ Hinv Hm).
  - unfold onSubmitFinalLineup. destruct lineup as [l|]; [|assumption].
    case_bool_decide; assumption.
  - unfold onToggleCell.
    destruct (gameState srv !! m) as [st|] eqn:Hm; [|assumption]. simpl.
    apply map_Forall_insert_2; [|assumption]. simpl.
    apply (Htog m index); [reflexivity|].
    apply (map_Forall_lookup_1 _ _ _ _ Hinv Hm).
Qed.

Lemma run_cons (ev : ClientEvent) (evs : list ClientEvent) (srv : Server) :
  (run (ev :: evs) srv).1 = (run evs (handle ev srv).1).1.
Proof.
  simpl. destruct (handle ev srv) as [srv1 out1]. simpl.
  destruct (run evs srv1). reflexivity.
Qed.

Lemma run_validState (evs : list ClientEvent) (srv : Server) :
  validState srv → validState (run evs srv).1.
Proof.
  revert srv. induction evs as [|ev evs IH]; intros srv Hv; [assumption|].
  rewrite run_cons. apply IH. unfold validState.
  apply (handle_selection_inv NoDup); [|assumption].
  intros m i l _. apply NoDup_toggleIndex.
Qed.

Lemma run_inRange (evs : list ClientEvent) (srv : Server) :
  Forall toggleInRange evs → inRange srv → inRange (run evs srv).1.
Proof.
  intros Hevs. revert srv. induction Hevs as [|ev evs Hev Hevs IH]; intros srv Hr; [assumption|].
  rewrite run_cons. apply IH. unfold inRange.
  apply (handle_selection_inv (Forall (λ i, 0 ≤ i ≤ 24))); [|assumption].
  intros m i l ->. simpl in Hev. by apply Forall_toggleIndex.
Qed.

(** ** The claims on the bingo evaluator and on toggling *)

Example gridLines_listed :
  gridLines =
    [[0; 1; 2; 3; 4]; [5; 6; 7; 8; 9]; [10; 11; 12; 13; 14]; [15; 16; 17; 18; 19];
     [20; 21; 22; 23; 24];
     [0; 5; 10; 15; 20]; [1; 6; 11; 16; 21]; [2; 7; 12; 17; 22]; [3; 8; 13; 18; 23];
     [4; 9; 14; 19; 24];
     [0; 6; 12; 18; 24]; [4; 8; 12; 16; 20]].
Proof. reflexivity. Qed.

(** C5. For every list of selected indices, [calculateBingoCount] returns the
    number of completed lines among the five rows, five columns and two
    diagonals of the 5x5 grid, index 12 counting as selected whatever the input:
    it agrees with [countCompletedLines] on the set of the list, adding 12 to
    the selection changes nothing, two lists with the same elements (whatever
    their order or repetitions) give the same count, the count is at most 12,
    and the four sample lines each give 1 while the empty selection gives 0. *)
Theorem calculateBingoCount_correct (selected : list Z) :
  calculateBingoCount selected = countCompletedLines (list_to_set selected)
  ∧ (∀ S : gset Z, countCompletedLines S = countCompletedLines (S ∪ {[12]}))
  ∧ calculateBingoCount (12 :: selected) = calculateBingoCount selected
  ∧ (∀ selected' : list Z,
       (∀ i, i ∈ selected' ↔ i ∈ selected) →
       calculateBingoCount selected' = calculateBingoCount selected)
  ∧ (0 ≤ calculateBingoCount selected ≤ 12)%nat
  ∧ calculateBingoCount [0; 1; 2; 3; 4] = 1%nat
  ∧ calculateBingoCount [0; 5; 10; 15; 20] = 1%nat
  ∧ calculateBingoCount [0; 6; 12; 18; 24] = 1%nat
  ∧ calculateBingoCount [4; 8; 12; 16; 20] = 1%nat
  ∧ calculateBingoCount [] = 0%nat.
Proof.
  split; [apply calculateBingoCount_refines|].
  split; [apply countCompletedLines_free|].
  split.
  { rewrite !calculateBingoCount_refines, (countCompletedLines_free (list_to_set selected)).
    f_equal. simpl. set_solver. }
  split; [intros selected' H; by apply calculateBingoCount_set|].
  split.
  { split; [lia|]. rewrite calculateBingoCount_refines. apply countCompletedLines_le. }
  repeat split; vm_compute; reflexivity.
Qed.

(** The order and the repetitions of the input do not matter: an instance. *)
Lemma calculateBingoCount_correct_witness :
  calculateBingoCount [4; 4; 2; 3; 1; 0; 2] = calculateBingoCount [0; 1; 2; 3; 4].
Proof.
  destruct (calculateBingoCount_correct [0; 1; 2; 3; 4]) as (_ & _ & _ & Hset & _).
  apply Hset.
  intros i. rewrite !elem_of_cons. rewrite !elem_of_nil. intuition.
Defined.

(** C8. For a member with a BoardState (whose selection holds no index twice,
    as the data model requires) and any index, two toggles in succession leave
    the member's selection, as a set, and the bingo count as they were; the
    stored array holds the same indices (possibly in another order), board and
    prediction are untouched, and so is every other member. *)
Theorem toggleCell_involution (srv : Server) (m : string) (st : BoardState) (index : Z) :
  gameState srv !! m = Some st →
  NoDup (selectedIndices st) →
  ∃ st2,
    gameState (onToggleCell m index (onToggleCell m index srv).1).1
      = <[m := st2]> (gameState srv)
    ∧ selection st2 = selection st
    ∧ selectedIndices st2 ≡ₚ selectedIndices st
    ∧ calculateBingoCount (selectedIndices st2) = calculateBingoCount (selectedIndices st)
    ∧ board st2 = board st
    ∧ prediction st2 = prediction st.
Proof.
  intros Hm Hnd.
  destruct (onToggleCell_Some srv m index st Hm) as [Hgs1 _].
  assert (gameState (onToggleCell m index srv).1 !! m
          = Some (mkBoardState (board st) (toggleIndex (selectedIndices st) index)
                               (prediction st))) as Hm1.
  { rewrite Hgs1. apply lookup_insert_eq. }
  destruct (onToggleCell_Some _ m index _ Hm1) as [Hgs2 _].
  eexists. split.
  { rewrite Hgs2, Hgs1. simpl. apply insert_insert_eq. }
  pose proof (toggleIndex_twice (selectedIndices st) index Hnd) as Hperm.
  simpl. repeat split; try assumption.
  - unfold selection. simpl. apply set_eq. intros i.
    rewrite !elem_of_list_to_set. by rewrite Hperm.
  - apply calculateBingoCount_set. intros i. by rewrite Hperm.
Qed.

Lemma toggleCell_involution_witness :
  ∃ st2,
    gameState (onToggleCell "alice" 7 (onToggleCell "alice" 7 sampleServer).1).1
      = <["alice"%string := st2]> (gameState sampleServer)
    ∧ selection st2 = selection aliceState
    ∧ selectedIndices st2 ≡ₚ selectedIndices aliceState
    ∧ calculateBingoCount (selectedIndices st2)
      = calculateBingoCount (selectedIndices aliceState)
    ∧ board st2 = board aliceState
    ∧ prediction st2 = prediction aliceState.
Proof.
  apply (toggleCell_involution sampleServer "alice" aliceState 7).
  - reflexivity.
  - simpl. apply NoDup_nil_2.
Defined.

(** The stored array itself may come back in another order. *)
Example toggle_twice_reorders : toggleIndex (toggleIndex [1; 2] 1) 1 = [2; 1].
Proof. reflexivity. Qed.

(** C2, as the claim states it, fails: a toggle whose index is no cell of the
    member's 25-cell board is not a no-op. The index is stored, the state
    changes, two effects are produced, and [selectedIndices] then holds a value
    outside [0,24]. *)
Lemma toggleCell_out_of_range_not_ignored :
  onToggleCell "alice" 99 sampleServer ≠ (sampleServer, [])
  ∧ length (board aliceState) = 25%nat
  ∧ selectedIndices <$> gameState (onToggleCell "alice" 99 sampleServer).1 !! "alice"%string
    = Some [99]
  ∧ (onToggleCell "alice" 99 sampleServer).2
    = [IoEmit (UpdateState "alice" [99] 0);
       SaveGameState (gameState (onToggleCell "alice" 99 sampleServer).1)]
  ∧ ¬ inRange (onToggleCell "alice" 99 sampleServer).1.
Proof.
  split; [|split; [|split; [|split]]].
  - intros H. apply (f_equal snd) in H. vm_compute in H. discriminate.
  - reflexivity.
  - reflexivity.
  - reflexivity.
  - intros H.
    pose proof (map_Forall_lookup_1 _ _ "alice"%string _ H eq_refl) as Hin.
    apply Forall_cons_1 in Hin as [Hin _]. lia.
Qed.

(** C2, amended. A toggle for a name without BoardState is a silent no-op
    (no state change, no effect) when the name is none of those a plain object
    inherits from [Object.prototype]; for those names [gameState[memberName]]
    is not [undefined] and nothing is stated. For a member with a BoardState
    the index is toggled whatever its value (the handler checks no range): in a
    state whose selections hold no duplicates, membership of the index is
    flipped and every other index is left alone. After any sequence of events
    from such a state no selection holds a duplicate; and no selection holds a
    value outside [0,24] as long as none did initially and every toggle of the
    sequence carried an index within [0,24]. *)
Theorem toggleCell_flips_membership
    (srv : Server) (m : string) (index : Z) (evs : list ClientEvent) :
  validState srv →
  (gameState srv !! m = None → m ∉ objectPrototypeKeys →
   onToggleCell m index srv = (srv, []))
  ∧ (∀ st, gameState srv !! m = Some st →
       ∃ st', gameState (onToggleCell m index srv).1 = <[m := st']> (gameState srv)
         ∧ (index ∈ selectedIndices st' ↔ index ∉ selectedIndices st)
         ∧ (∀ j, j ≠ index → j ∈ selectedIndices st' ↔ j ∈ selectedIndices st)
         ∧ board st' = board st ∧ prediction st' = prediction st)
  ∧ validState (run evs srv).1
  ∧ (inRange srv → Forall toggleInRange evs → inRange (run evs srv).1).
Proof.
  intros Hv. split; [intros Hm _; by apply onToggleCell_None|]. split.
  - intros st Hm. destruct (onToggleCell_Some srv m index st Hm) as [Hgs _].
    eexists. split; [exact Hgs|]. simpl.
    pose proof (map_Forall_lookup_1 _ _ _ _ Hv Hm) as Hnd. simpl in Hnd.
    split; [by apply elem_of_toggleIndex_eq|].
    split; [intros j Hj; by apply elem_of_toggleIndex_ne|done].
  - split; [by apply run_validState|].
    intros Hr Hevs. by apply run_inRange.
Qed.

Lemma toggleCell_flips_membership_witness :
  onToggleCell "carol" 5 sampleServer = (sampleServer, [])
  ∧ (∀ st, gameState sampleServer !! "alice"%string = Some st →
       ∃ st', gameState (onToggleCell "alice" 5 sampleServer).1
              = <["alice"%string := st']> (gameState sampleServer)
         ∧ (5 ∈ selectedIndices st' ↔ 5 ∉ selectedIndices st)
         ∧ (∀ j, j ≠ 5 → j ∈ selectedIndices st' ↔ j ∈ selectedIndices st)
         ∧ board st' = board st ∧ prediction st' = prediction st)
  ∧ validState (run sampleToggles sampleServer).1
  ∧ (inRange sampleServer → Forall toggleInRange sampleToggles →
     inRange (run sampleToggles sampleServer).1).
Proof.
  assert (validState sampleServer) as Hvalid
    by (apply (bool_decide_unpack _); vm_compute; exact I).
  destruct (toggleCell_flips_membership sampleServer "carol" 5 [] Hvalid) as (Hnoop & _).
  destruct (toggleCell_flips_membership sampleServer "alice" 5 sampleToggles Hvalid)
    as (_ & Hrest).
  split; [|exact Hrest].
  apply Hnoop; [reflexivity|].
  apply (bool_decide_unpack _). vm_compute. exact I.
Defined.

Example sampleToggles_result :
  selectedIndices <$> gameState (run sampleToggles sampleServer).1 !! "alice"%string
  = Some [6; 18; 24].
Proof. reflexivity. Qed.

(** ** Theorems: the one-time prediction *)

Lemma onSubmitPrediction_accepted (srv : Server) (m : string) (st : BoardState)
    (picks : list string) :
  gameState srv !! m = Some st → prediction st = None → length picks = 12%nat →
  onSubmitPrediction m picks srv
  = (setGameState srv
       (<[m := mkBoardState (board st) (selectedIndices st) (Some picks)]> (gameState srv)),
     [SaveGameState
        (<[m := mkBoardState (board st) (selectedIndices st) (Some picks)]> (gameState srv));
      IoEmit (PredictionUpdate m true)]).
Proof.
  intros Hm Hp Hlen. unfold onSubmitPrediction. rewrite Hm, Hp. simpl.
  by rewrite bool_decide_eq_true_2.
Qed.

Lemma onSubmitPrediction_rejected (srv : Server) (m : string) (picks : list string) :
  (∀ st, gameState srv !! m = Some st → is_Some (prediction st) ∨ length picks ≠ 12%nat) →
  onSubmitPrediction m picks srv = (srv, []).
Proof.
  intros H. unfold onSubmitPrediction.
  destruct (gameState srv !! m) as [st|]; [|reflexivity].
  destruct (H st eq_refl) as [[p Hp]|Hlen].
  - by rewrite Hp.
  - rewrite (bool_decide_eq_false_2 _ Hlen). by destruct (negb _).
Qed.

(** Once stored, a prediction survives every event. *)
Lemma handle_prediction_locked (ev : ClientEvent) (srv : Server) (m : string)
    (p : list string) :
  predictionOf srv m = Some (Some p) → predictionOf (handle ev srv).1 m = Some (Some p).
Proof.
  unfold predictionOf. intros H.
  destruct ev as [|name|m' picks|lineup|m' index|]; simpl; try assumption.
  - unfold onSubmitPrediction.
    destruct (gameState srv !! m') as [st|] eqn:Hm'; [|assumption].
    destruct (prediction st) as [q|] eqn:Hq; simpl; [assumption|].
    case_bool_decide; [|assumption]. simpl.
    destruct (decide (m' = m)) as [->|Hne].
    + rewrite Hm' in H. simpl in H. congruence.
    + by rewrite lookup_insert_ne.
  - unfold onSubmitFinalLineup. destruct lineup as [l|]; [|assumption].
    case_bool_decide; assumption.
  - unfold onToggleCell.
    destruct (gameState srv !! m') as [st|] eqn:Hm'; [|assumption]. simpl.
    destruct (decide (m' = m)) as [->|Hne].
    + rewrite lookup_insert_eq. rewrite Hm' in H. exact H.
    + by rewrite lookup_insert_ne.
Qed.

Lemma run_prediction_locked (evs : list ClientEvent) (srv : Server) (m : string)
    (p : list string) :
  predictionOf srv m = Some (Some p) → predictionOf (run evs srv).1 m = Some (Some p).
Proof.
  revert srv. induction evs as [|ev evs IH]; intros srv H; [assumption|].
  rewrite run_cons. by apply IH, handle_prediction_locked.
Qed.

Lemma handle_prediction_absent (ev : ClientEvent) (srv : Server) (m : string) :
  notAccepting m ev →
  predictionOf srv m = Some None → predictionOf (handle ev srv).1 m = Some None.
Proof.
  unfold predictionOf. intros Hev H.
  destruct ev as [|name|m' picks|lineup|m' index|]; simpl; try assumption.
  - unfold onSubmitPrediction.
    destruct (gameState srv !! m') as [st|] eqn:Hm'; [|assumption].
    destruct (negb _); [|assumption].
    case_bool_decide as Hlen; [|assumption]. simpl.
    destruct (decide (m' = m)) as [->|Hne].
    + simpl in Hev. by destruct Hev.
    + by rewrite lookup_insert_ne.
  - unfold onSubmitFinalLineup. destruct lineup as [l|]; [|assumption].
    case_bool_decide; assumption.
  - unfold onToggleCell.
    destruct (gameState srv !! m') as [st|] eqn:Hm'; [|assumption]. simpl.
    destruct (decide (m' = m)) as [->|Hne].
    + rewrite lookup_insert_eq. rewrite Hm' in H. exact H.
    + by rewrite lookup_insert_ne.
Qed.

Lemma run_prediction_absent (evs : list ClientEvent) (srv : Server) (m : string) :
  Forall (notAccepting m) evs →
  predictionOf srv m = Some None → predictionOf (run evs srv).1 m = Some None.
Proof.
  intros Hevs. revert srv.
  induction Hevs as [|ev evs Hev Hevs IH]; intros srv H; [assumption|].
  rewrite run_cons. by apply IH, handle_prediction_absent.
Qed.

(** C3. For a member with a BoardState: a submission when a prediction is
    already stored, or with a number of picks other than 12, changes nothing and
    produces no effect; otherwise the 12 picks are stored as they are, whatever
    they contain, the state is saved and the flag is broadcast. The prediction
    stored by an accepted submission is still the stored one after any further
    events, and a member without prediction stays so through any events that
    include no 12-pick submission for that member. *)
Theorem submitPrediction_one_time_lock
    (srv : Server) (m : string) (st : BoardState) (picks : list string)
    (evs : list ClientEvent) :
  gameState srv !! m = Some st →
  (is_Some (prediction st) ∨ length picks ≠ 12%nat →
     onSubmitPrediction m picks srv = (srv, []))
  ∧ (prediction st = None → length picks = 12%nat →
     onSubmitPrediction m picks srv
     = (setGameState srv
          (<[m := mkBoardState (board st) (selectedIndices st) (Some picks)]>
             (gameState srv)),
        [SaveGameState
           (<[m := mkBoardState (board st) (selectedIndices st) (Some picks)]>
              (gameState srv));
         IoEmit (PredictionUpdate m true)])
     ∧ predictionOf (run evs (onSubmitPrediction m picks srv).1).1 m = Some (Some picks))
  ∧ (prediction st = None → Forall (notAccepting m) evs →
     predictionOf (run evs srv).1 m = Some None).
Proof.
  intros Hm. split; [|split].
  - intros H. apply onSubmitPrediction_rejected. intros st' Hst'.
    rewrite Hm in Hst'. by injection Hst' as <-.
  - intros Hp Hlen. rewrite (onSubmitPrediction_accepted srv m st picks) by assumption.
    split; [reflexivity|].
    apply run_prediction_locked. unfold predictionOf. simpl.
    by rewrite lookup_insert_eq.
  - intros Hp Hevs. apply run_prediction_absent; [assumption|].
    unfold predictionOf. by rewrite Hm, <- Hp.
Qed.

Lemma submitPrediction_one_time_lock_witness :
  onSubmitPrediction "alice" (take 11 sampleGroups) sampleServer = (sampleServer, [])
  ∧ predictionOf (onSubmitPrediction "alice" samplePicks sampleServer).1 "alice"
    = Some (Some samplePicks)
  ∧ predictionOf (run laterEvents (onSubmitPrediction "alice" samplePicks sampleServer).1).1
                 "alice"
    = Some (Some samplePicks)
  ∧ predictionOf (run quietEvents sampleServer).1 "alice" = Some None.
Proof.
  destruct (submitPrediction_one_time_lock sampleServer "alice" aliceState
              (take 11 sampleGroups) [] eq_refl) as (Hrej & _ & _).
  destruct (submitPrediction_one_time_lock sampleServer "alice" aliceState
              samplePicks laterEvents eq_refl) as (_ & Hacc & _).
  destruct (submitPrediction_one_time_lock sampleServer "alice" aliceState
              samplePicks quietEvents eq_refl) as (_ & _ & Habs).
  split; [|split; [|split]].
  - apply Hrej. right. vm_compute. lia.
  - destruct (Hacc eq_refl eq_refl) as [-> _]. reflexivity.
  - apply (Hacc eq_refl eq_refl).
  - apply (Habs eq_refl).
    repeat (apply Forall_cons_2 || apply Forall_nil_2); simpl;
      first [exact I | intros H; discriminate H | intros _; vm_compute; lia].
Defined.

(** ** Theorems: the visibility filter *)

Lemma getPublicState_lookup (srv : Server) (viewer : option string) (m : string) :
  getPublicState srv viewer !! m
  = publicEntry (finalLineup srv) viewer m <$> gameState srv !! m.
Proof.
  unfold getPublicState. rewrite map_lookup_imap.
  by destruct (gameState srv !! m).
Qed.

Lemma getPublicState_dom (srv : Server) (viewer : option string) :
  dom (getPublicState srv viewer) = dom (gameState srv).
Proof.
  apply dom_imap_L. intros m. rewrite elem_of_dom. split.
  - intros [st Hst]. exists st. split; [assumption|]. by eexists.
  - intros (st & Hst & _). by exists st.
Qed.

Lemma getPublicState_insert (srv : Server) (viewer : option string) (m : string)
    (st : BoardState) :
  getPublicState (setGameState srv (<[m := st]> (gameState srv))) viewer
  = <[m := publicEntry (finalLineup srv) viewer m st]> (getPublicState srv viewer).
Proof. unfold getPublicState. simpl. by apply map_imap_insert_Some. Qed.

(** Before the reveal, the entry shown for a member other than the viewer. *)
Lemma publicEntry_masked (viewer : option string) (m : string) (st : BoardState) :
  viewer ≠ Some m →
  publicEntry [] viewer m st
  = mkPublicEntry (board st) (selectedIndices st)
                  (calculateBingoCount (selectedIndices st))
                  (mkPredictionData (truthy (prediction st)) None None).
Proof.
  intros Hne. unfold publicEntry. simpl.
  rewrite (bool_decide_eq_false_2 (Some m = viewer)) by congruence.
  reflexivity.
Qed.

(** After the reveal, the entry shown for any member to any viewer. *)
Lemma publicEntry_revealed (fl : list string) (viewer : option string) (m : string)
    (st : BoardState) :
  fl ≠ [] →
  publicEntry fl viewer m st
  = mkPublicEntry (board st) (selectedIndices st)
                  (calculateBingoCount (selectedIndices st))
                  (mkPredictionData (truthy (prediction st)) (Some (prediction st))
                                    (Some (scoreOf fl (prediction st)))).
Proof.
  intros Hne. unfold publicEntry.
  rewrite bool_decide_eq_true_2; [reflexivity|].
  destruct fl; [done|simpl; lia].
Qed.

(** C4. While [finalLineup] is empty, what a viewer is shown for another
    member carries the flag [hasPredicted] and neither the prediction nor a
    score; replacing that member's prediction by any other value changes the
    viewer's whole view in that flag only, and not at all when the flag is the
    same. Once [finalLineup] is non-empty, every viewer is shown the member's
    stored prediction and a score. *)
Theorem prediction_masking (srv : Server) (viewer : option string) (m : string)
    (st : BoardState) :
  gameState srv !! m = Some st →
  viewer ≠ Some m →
  (finalLineup srv = [] →
     getPublicState srv viewer !! m
     = Some (mkPublicEntry (board st) (selectedIndices st)
                           (calculateBingoCount (selectedIndices st))
                           (mkPredictionData (truthy (prediction st)) None None))
     ∧ (∀ p' : option (list string),
          getPublicState
            (setGameState srv
               (<[m := mkBoardState (board st) (selectedIndices st) p']> (gameState srv)))
            viewer
          = <[m := mkPublicEntry (board st) (selectedIndices st)
                                 (calculateBingoCount (selectedIndices st))
                                 (mkPredictionData (truthy p') None None)]>
              (getPublicState srv viewer))
     ∧ (∀ p' : option (list string),
          truthy p' = truthy (prediction st) →
          getPublicState
            (setGameState srv
               (<[m := mkBoardState (board st) (selectedIndices st) p']> (gameState srv)))
            viewer
          = getPublicState srv viewer))
  ∧ (finalLineup srv ≠ [] →
     ∀ viewer' : option string,
       getPublicState srv viewer' !! m
       = Some (mkPublicEntry (board st) (selectedIndices st)
                             (calculateBingoCount (selectedIndices st))
                             (mkPredictionData (truthy (prediction st))
                                (Some (prediction st))
                                (Some (scoreOf (finalLineup srv) (prediction st)))))).
Proof.
  intros Hm Hne. split.
  - intros Hfl.
    assert (getPublicState srv viewer !! m
            = Some (mkPublicEntry (board st) (selectedIndices st)
                      (calculateBingoCount (selectedIndices st))
                      (mkPredictionData (truthy (prediction st)) None None))) as Hview.
    { rewrite getPublicState_lookup, Hm, Hfl. simpl. by rewrite publicEntry_masked. }
    split; [exact Hview|].
    assert (∀ p' : option (list string),
          getPublicState
            (setGameState srv
               (<[m := mkBoardState (board st) (selectedIndices st) p']> (gameState srv)))
            viewer
          = <[m := mkPublicEntry (board st) (selectedIndices st)
                                 (calculateBingoCount (selectedIndices st))
                                 (mkPredictionData (truthy p') None None)]>
              (getPublicState srv viewer)) as Hins.
    { intros p'. rewrite getPublicState_insert, Hfl. by rewrite publicEntry_masked. }
    split; [exact Hins|].
    intros p' Hp'. rewrite Hins, Hp'. by apply insert_id.
  - intros Hfl viewer'. rewrite getPublicState_lookup, Hm. simpl.
    by rewrite publicEntry_revealed.
Qed.

Lemma prediction_masking_witness :
  getPublicState predictedServer (Some "bob"%string) !! "alice"%string
  = Some (mkPublicEntry (board aliceState) [] 0 (mkPredictionData true None None))
  ∧ getPublicState
      (setGameState predictedServer
         (<["alice"%string := mkBoardState (board aliceState) [] (Some otherPicks)]>
            (gameState predictedServer)))
      (Some "bob"%string)
    = getPublicState predictedServer (Some "bob"%string)
  ∧ getPublicState predictedRevealed None !! "alice"%string
    = Some (mkPublicEntry (board aliceState) [] 0
              (mkPredictionData true (Some (Some samplePicks)) (Some 10%nat))).
Proof.
  assert (Some "bob"%string ≠ Some "alice"%string) as Hne by discriminate.
  destruct (prediction_masking predictedServer (Some "bob"%string) "alice"
              (mkBoardState (board aliceState) [] (Some samplePicks)) eq_refl Hne)
    as [Hpre _].
  destruct (prediction_masking predictedRevealed (Some "bob"%string) "alice"
              (mkBoardState (board aliceState) [] (Some samplePicks)) eq_refl Hne)
    as [_ Hpost].
  destruct (Hpre eq_refl) as (Hview & _ & Hsame).
  split; [exact Hview|].
  split; [exact (Hsame (Some otherPicks) eq_refl)|].
  apply (Hpost ltac:(discriminate) None).
Defined.

(** C10. The connection callback itself, before the handler of any later
    event of the connection runs, emits to the connecting socket alone one
    [init] message holding the roster, the groups, the current [finalLineup]
    and the view of an anonymous viewer: an entry for every member with its
    board, selected indices and bingo count, and, while [finalLineup] is
    empty, a prediction reduced to the flag [hasPredicted]. *)
Theorem connection_emits_anonymous_init (srv : Server) (evs : list ClientEvent) :
  handle Connection srv
  = (srv, [SocketEmit (Init (members srv) (groups srv) (getPublicState srv None)
                            (finalLineup srv))])
  ∧ (∃ out, (run (Connection :: evs) srv).2
            = SocketEmit (Init (members srv) (groups srv) (getPublicState srv None)
                               (finalLineup srv)) :: out)
  ∧ dom (getPublicState srv None) = dom (gameState srv)
  ∧ (∀ m st, gameState srv !! m = Some st →
       ∃ e, getPublicState srv None !! m = Some e
         ∧ pub_board e = board st
         ∧ pub_selectedIndices e = selectedIndices st
         ∧ pub_bingoCount e = calculateBingoCount (selectedIndices st)
         ∧ (finalLineup srv = [] →
            pub_prediction e = mkPredictionData (truthy (prediction st)) None None)).
Proof.
  split; [reflexivity|]. split.
  { simpl. destruct (run evs srv) as [srv2 out2]. by exists out2. }
  split; [apply getPublicState_dom|].
  intros m st Hm. eexists. split.
  { rewrite getPublicState_lookup, Hm. reflexivity. }
  repeat split. intros Hfl. rewrite Hfl. by rewrite publicEntry_masked.
Qed.

Lemma connection_emits_anonymous_init_witness :
  ∃ e, getPublicState predictedServer None !! "alice"%string = Some e
    ∧ pub_board e = board aliceState
    ∧ pub_selectedIndices e = []
    ∧ pub_bingoCount e = 0%nat
    ∧ (finalLineup predictedServer = [] →
       pub_prediction e = mkPredictionData true None None).
Proof.
  destruct (connection_emits_anonymous_init predictedServer []) as (_ & _ & _ & H).
  apply (H "alice"%string (mkBoardState (board aliceState) [] (Some samplePicks))).
  reflexivity.
Defined.

(** ** Theorems: scoring *)

Lemma occurrences_cons (g p : string) (ps : list string) :
  occurrences g (p :: ps) = ((if bool_decide (p = g) then 1 else 0) + occurrences g ps)%nat.
Proof.
  unfold occurrences. rewrite filter_cons.
  destruct (decide (p = g)) as [Heq|Hne].
  - by rewrite bool_decide_eq_true_2.
  - by rewrite bool_decide_eq_false_2.
Qed.

(** Over a duplicate-free list of groups, counting the entries of [ps] that
    belong to the list is adding up, group by group, the entries equal to it. *)
Lemma length_filter_elem_of (l ps : list string) :
  NoDup l →
  length (filter (λ p, p ∈ l) ps) = sum_list_with (λ g, occurrences g ps) l.
Proof.
  intros Hl. induction ps as [|p ps IH].
  - simpl. induction l as [|g l IHl]; [reflexivity|].
    simpl. rewrite <- IHl by (by apply NoDup_cons_1_2 in Hl). reflexivity.
  - rewrite filter_cons.
    assert (sum_list_with (λ g, occurrences g (p :: ps)) l
            = ((if bool_decide (p ∈ l) then 1 else 0)
               + sum_list_with (λ g, occurrences g ps) l)%nat) as ->.
    { clear IH. induction Hl as [|g l Hg Hl IHl]; [reflexivity|].
      simpl. rewrite IHl, occurrences_cons.
      destruct (decide (p = g)) as [->|Hne].
      - rewrite bool_decide_eq_true_2 by reflexivity.
        rewrite (bool_decide_eq_true_2 (g ∈ g :: l)) by set_solver.
        rewrite (bool_decide_eq_false_2 (g ∈ l)) by assumption. lia.
      - rewrite (bool_decide_eq_false_2 (p = g)) by assumption.
        destruct (decide (p ∈ l)) as [Hin|Hnin].
        + rewrite !bool_decide_eq_true_2 by set_solver. lia.
        + rewrite !bool_decide_eq_false_2 by set_solver. lia. }
    destruct (decide (p ∈ l)) as [Hin|Hnin].
    + rewrite bool_decide_eq_true_2 by assumption. simpl. by rewrite IH.
    + rewrite bool_decide_eq_false_2 by assumption. by rewrite IH.
Qed.

Lemma scoreOf_by_group (fl ps : list string) :
  scoreOf fl (Some ps) = sum_list_with (λ g, occurrences g ps) (remove_dups fl).
Proof.
  unfold scoreOf. rewrite <- length_filter_elem_of by apply NoDup_remove_dups.
  f_equal. apply list_filter_iff. intros p. by rewrite elem_of_remove_dups.
Qed.

(** The score looks at values, not at positions. *)
Lemma scoreOf_unordered (fl fl' ps ps' : list string) :
  (∀ g, g ∈ fl ↔ g ∈ fl') → ps ≡ₚ ps' → scoreOf fl (Some ps) = scoreOf fl' (Some ps').
Proof.
  intros Hfl Hps. unfold scoreOf.
  rewrite (list_filter_iff (λ p, p ∈ fl) (λ p, p ∈ fl')) by (intros p; apply Hfl).
  by rewrite Hps.
Qed.

(** C7, as the claim states it, fails in its clause on duplicates: a group
    picked twice and present once in the lineup scores twice, so the score
    exceeds the number of lineup entries that are matched. *)
Lemma score_counts_duplicates_twice :
  (pd_score ∘ pub_prediction) <$> getPublicState duplicateScoreServer None !! "alice"%string
  = Some (Some 2%nat)
  ∧ finalLineup duplicateScoreServer = ["g00"%string]
  ∧ predictionOf duplicateScoreServer "alice" = Some (Some duplicatedPicks)
  ∧ matchedLineupEntries (finalLineup duplicateScoreServer) duplicatedPicks = 1%nat
  ∧ ¬ (scoreOf (finalLineup duplicateScoreServer) (Some duplicatedPicks)
       ≤ matchedLineupEntries (finalLineup duplicateScoreServer) duplicatedPicks)%nat.
Proof.
  split; [reflexivity|]. split; [reflexivity|]. split; [reflexivity|].
  split; [reflexivity|]. vm_compute. lia.
Qed.

(** C7, amended. When [finalLineup] is non-empty the score presented for a
    member is the number of entries of the member's prediction whose value
    occurs in [finalLineup]: a membership test that ignores positions, in which
    every entry of the prediction counts for itself (a group picked k times and
    present in the lineup contributes k, however often the lineup names it), so
    that the score is the sum, over the distinct groups of the lineup, of their
    occurrences in the prediction; it never exceeds the number of picks, and a
    member without prediction scores 0. *)
Theorem score_counts_matching_picks (srv : Server) (viewer : option string)
    (m : string) (st : BoardState) :
  gameState srv !! m = Some st →
  finalLineup srv ≠ [] →
  ∃ e, getPublicState srv viewer !! m = Some e
    ∧ pd_score (pub_prediction e) = Some (scoreOf (finalLineup srv) (prediction st))
    ∧ (prediction st = None → pd_score (pub_prediction e) = Some 0%nat)
    ∧ (∀ ps, prediction st = Some ps →
         pd_score (pub_prediction e)
         = Some (sum_list_with (λ g, occurrences g ps) (remove_dups (finalLineup srv)))
         ∧ (scoreOf (finalLineup srv) (Some ps) ≤ length ps)%nat
         ∧ (∀ fl' ps', (∀ g, g ∈ finalLineup srv ↔ g ∈ fl') → ps ≡ₚ ps' →
              scoreOf fl' (Some ps') = scoreOf (finalLineup srv) (Some ps))).
Proof.
  intros Hm Hfl. eexists. split.
  { rewrite getPublicState_lookup, Hm. simpl. by rewrite publicEntry_revealed. }
  simpl. split; [reflexivity|]. split.
  - intros ->. reflexivity.
  - intros ps ->. split; [by rewrite scoreOf_by_group|]. split.
    + apply length_filter.
    + intros fl' ps' Hfl' Hps. symmetry. by apply scoreOf_unordered.
Qed.

Lemma score_counts_matching_picks_witness :
  ∃ e, getPublicState predictedRevealed (Some "bob"%string) !! "alice"%string = Some e
    ∧ pd_score (pub_prediction e) = Some 10%nat
    ∧ (prediction (mkBoardState (board aliceState) [] (Some samplePicks)) = None →
       pd_score (pub_prediction e) = Some 0%nat)
    ∧ (∀ ps, prediction (mkBoardState (board aliceState) [] (Some samplePicks)) = Some ps →
         pd_score (pub_prediction e)
         = Some (sum_list_with (λ g, occurrences g ps)
                               (remove_dups (finalLineup predictedRevealed)))
         ∧ (scoreOf (finalLineup predictedRevealed) (Some ps) ≤ length ps)%nat
         ∧ (∀ fl' ps', (∀ g, g ∈ finalLineup predictedRevealed ↔ g ∈ fl') → ps ≡ₚ ps' →
              scoreOf fl' (Some ps') = scoreOf (finalLineup predictedRevealed) (Some ps))).
Proof.
  apply (score_counts_matching_picks predictedRevealed (Some "bob"%string) "alice"
           (mkBoardState (board aliceState) [] (Some samplePicks))).
  - reflexivity.
  - discriminate.
Defined.

(** ** Theorems: order of the durable write and the broadcast *)

(** The two sibling handlers write first, then broadcast. *)
Lemma submitPrediction_writes_first (srv : Server) (m : string) (picks : list string) :
  writeBeforeBroadcast false (onSubmitPrediction m picks srv).2 = true.
Proof.
  unfold onSubmitPrediction.
  destruct (gameState srv !! m) as [st|]; [|reflexivity].
  destruct (negb _); [|reflexivity].
  case_bool_decide; reflexivity.
Qed.

Lemma submitFinalLineup_writes_first (srv : Server) (lineup : option (list string)) :
  writeBeforeBroadcast false (onSubmitFinalLineup lineup srv).2 = true.
Proof.
  unfold onSubmitFinalLineup. destruct lineup as [l|]; [|reflexivity].
  case_bool_decide; reflexivity.
Qed.

(** C6 (the code at the failing input, and at every accepted toggle). An
    accepted [toggleCell] first broadcasts [updateState], then possibly
    [bingoAnnouncement], and only then saves the state: its broadcasts are sent
    before the durable write, unlike those of the two other handlers. *)
Theorem toggleCell_broadcasts_before_saving (srv : Server) (m : string) (index : Z)
    (st : BoardState) :
  gameState srv !! m = Some st →
  ∃ announcement,
    (onToggleCell m index srv).2
    = IoEmit (UpdateState m (toggleIndex (selectedIndices st) index)
                (calculateBingoCount (toggleIndex (selectedIndices st) index)))
      :: announcement ++ [SaveGameState (gameState (onToggleCell m index srv).1)]
    ∧ forallb isBroadcast announcement = true
    ∧ writeBeforeBroadcast false (onToggleCell m index srv).2 = false.
Proof.
  intros Hm. unfold onToggleCell. rewrite Hm. simpl.
  eexists. split; [reflexivity|]. split.
  - case_bool_decide; reflexivity.
  - reflexivity.
Qed.

Lemma toggleCell_broadcasts_before_saving_witness :
  ∃ announcement,
    (onToggleCell "alice" 0 sampleServer).2
    = IoEmit (UpdateState "alice" (toggleIndex (selectedIndices aliceState) 0)
                (calculateBingoCount (toggleIndex (selectedIndices aliceState) 0)))
      :: announcement ++ [SaveGameState (gameState (onToggleCell "alice" 0 sampleServer).1)]
    ∧ forallb isBroadcast announcement = true
    ∧ writeBeforeBroadcast false (onToggleCell "alice" 0 sampleServer).2 = false.
Proof.
  apply (toggleCell_broadcasts_before_saving sampleServer "alice" 0 aliceState).
  reflexivity.
Defined.

Example toggleCell_effects_sample :
  (onToggleCell "alice" 0 sampleServer).2
  = [IoEmit (UpdateState "alice" [0] 0);
     SaveGameState (gameState (onToggleCell "alice" 0 sampleServer).1)].
Proof. reflexivity. Qed.

Example toggleCell_effects_bingo :
  (onToggleCell "alice" 4
     (run [ToggleCell "alice" 0; ToggleCell "alice" 1; ToggleCell "alice" 2;
           ToggleCell "alice" 3] sampleServer).1).2
  = [IoEmit (UpdateState "alice" [0; 1; 2; 3; 4] 1);
     IoEmit (BingoAnnouncement "alice" 1);
     SaveGameState
       (<["alice"%string := mkBoardState (board aliceState) [0; 1; 2; 3; 4] None]>
          (gameState sampleServer))].
Proof. vm_compute. reflexivity. Qed.

(** ** Theorems: the reveal *)

Lemma onSubmitFinalLineup_empty (srv : Server) :
  onSubmitFinalLineup None srv = (srv, [])
  ∧ onSubmitFinalLineup (Some []) srv = (srv, []).
Proof. split; reflexivity. Qed.

Lemma onSubmitFinalLineup_nonempty (srv : Server) (lineup : list string) :
  lineup ≠ [] →
  onSubmitFinalLineup (Some lineup) srv
  = (setFinalLineup srv lineup,
     [WriteLineupFile lineup;
      IoEmit (GameOver lineup (getPublicState (setFinalLineup srv lineup) None))]).
Proof.
  intros Hne. unfold onSubmitFinalLineup.
  rewrite bool_decide_eq_true_2; [reflexivity|].
  destruct lineup; [done|simpl; lia].
Qed.

(** No event empties a lineup that has been revealed. *)
Lemma handle_finalLineup_nonempty (ev : ClientEvent) (srv : Server) :
  finalLineup srv ≠ [] → finalLineup (handle ev srv).1 ≠ [].
Proof.
  intros H. destruct ev as [|name|m picks|lineup|m index|]; simpl; try assumption.
  - unfold onSubmitPrediction. destruct (gameState srv !! m); [|assumption].
    destruct (negb _); [|assumption]. case_bool_decide; assumption.
  - unfold onSubmitFinalLineup. destruct lineup as [l|]; [|assumption].
    case_bool_decide as Hl; [|assumption]. simpl.
    destruct l; [simpl in Hl; lia|done].
  - unfold onToggleCell. destruct (gameState srv !! m); assumption.
Qed.

Lemma run_finalLineup_nonempty (evs : list ClientEvent) (srv : Server) :
  finalLineup srv ≠ [] → finalLineup (run evs srv).1 ≠ [].
Proof.
  revert srv. induction evs as [|ev evs IH]; intros srv H; [assumption|].
  rewrite run_cons. by apply IH, handle_finalLineup_nonempty.
Qed.

(** C1 (the code at the failing input). After a first reveal, a second
    [submitFinalLineup] carrying another non-empty lineup is accepted: it
    replaces [finalLineup], writes the lineup file again and broadcasts
    [gameOver] again. *)
Theorem submitFinalLineup_second_reveal_overwrites :
  finalLineup revealedServer = samplePicks
  ∧ samplePicks ≠ otherPicks
  ∧ finalLineup (onSubmitFinalLineup (Some otherPicks) revealedServer).1 = otherPicks
  ∧ (onSubmitFinalLineup (Some otherPicks) revealedServer).2
    = [WriteLineupFile otherPicks;
       IoEmit (GameOver otherPicks
                 (getPublicState (setFinalLineup revealedServer otherPicks) None))].
Proof.
  split; [reflexivity|]. split; [discriminate|]. split; reflexivity.
Qed.

(** ** Theorems: the board generator *)

Lemma insert_cons_Permutation (a : list string) (j : nat) (x b : string) :
  a !! j = Some b → b :: <[j := x]> a ≡ₚ x :: a.
Proof.
  revert j. induction a as [|y a IH]; intros [|j] Hj; simplify_eq/=.
  - apply Permutation_swap.
  - rewrite Permutation_swap, (IH j Hj). apply Permutation_swap.
Qed.

Lemma swap_Permutation (a : list string) (i j : nat) : swap a i j ≡ₚ a.
Proof.
  unfold swap.
  destruct (a !! i) as [ai|] eqn:Hi; [|reflexivity].
  destruct (a !! j) as [aj|] eqn:Hj; [|reflexivity].
  revert i j Hi Hj. induction a as [|y a IH]; intros [|i] [|j] Hi Hj; simplify_eq/=.
  - reflexivity.
  - by apply insert_cons_Permutation.
  - by apply insert_cons_Permutation.
  - f_equiv. by apply IH.
Qed.

Lemma fisherYates_Permutation (draw : nat → nat) (i : nat) (a : list string) :
  fisherYates draw i a ≡ₚ a.
Proof.
  revert a. induction i as [|i IH]; intros a; simpl; [reflexivity|].
  rewrite IH. apply swap_Permutation.
Qed.

Lemma fisherYates_length (draw : nat → nat) (i : nat) (a : list string) :
  length (fisherYates draw i a) = length a.
Proof. apply Permutation_length, fisherYates_Permutation. Qed.

(** The shuffle keeps the length of the array and starts at its last index, so
    each of its swaps reads and writes inside the array when the drawn index is
    at most [i], as [Math.floor(Math.random() * (i + 1))] is. *)
Lemma swap_in_range (a : list string) (i j : nat) :
  (i < length a)%nat → (j ≤ i)%nat →
  ∃ ai aj, a !! i = Some ai ∧ a !! j = Some aj ∧ swap a i j = <[j := ai]> (<[i := aj]> a).
Proof.
  intros Hi Hj.
  destruct (lookup_lt_is_Some_2 a i Hi) as [ai Hai].
  destruct (lookup_lt_is_Some_2 a j ltac:(lia)) as [aj Haj].
  exists ai, aj. unfold swap. by rewrite Hai, Haj.
Qed.

Lemma newBoard_full (draw : nat → nat) (terms : list string) :
  (24 ≤ length terms)%nat →
  ∃ boardTerms,
    newBoard draw terms = take 12 boardTerms ++ "FREE SPACE"%string :: drop 12 boardTerms
    ∧ length boardTerms = 24%nat
    ∧ boardTerms ⊆+ terms.
Proof.
  intros Hlen. exists (take 24 (fisherYates draw (length terms - 1) terms)).
  assert (length (take 24 (fisherYates draw (length terms - 1) terms)) = 24%nat) as Hbt.
  { rewrite length_take, (Permutation_length (fisherYates_Permutation _ _ _)). lia. }
  split; [|split; [exact Hbt|]].
  - unfold newBoard. rewrite (bool_decide_eq_true_2 _ Hlen).
    rewrite bool_decide_eq_true_2; [reflexivity|]. rewrite Hbt. lia.
  - transitivity (fisherYates draw (length terms - 1) terms); [apply submseteq_take|].
    by rewrite fisherYates_Permutation.
Qed.

(** C9, as the claim states it, fails: a pool of 24 lines that repeat one
    term is a pool of at least 24 terms, and the 24 entries of the board other
    than the free space are then not free of duplicates. *)
Lemma newBoard_repeats_repeated_terms :
  (24 ≤ length repeatedTerms)%nat
  ∧ delete 12%nat (newBoard (λ i, i) repeatedTerms) = replicate 24 "same"%string
  ∧ ¬ NoDup (delete 12%nat (newBoard (λ i, i) repeatedTerms)).
Proof.
  assert (delete 12%nat (newBoard (λ i, i) repeatedTerms) = replicate 24 "same"%string)
    as Heq by (vm_compute; reflexivity).
  split; [vm_compute; lia|]. split; [exact Heq|].
  rewrite Heq. simpl. intros H. apply NoDup_cons_1_1 in H. apply H. left.
Qed.

(** C9, amended. For any pool of at least 24 lines and any outcome of the
    random draws, a freshly generated board has exactly 25 entries, "FREE
    SPACE" at index 12, and its 24 other entries are taken from 24 different
    positions of the pool (a sub-multiset of it): each is a term of the pool,
    and they are duplicate-free whenever the pool has no repeated term. For a
    pool of fewer than 12 lines the board is the pool followed by "FREE SPACE". *)
Theorem newBoard_invariant (draw : nat → nat) (terms : list string) :
  ((24 ≤ length terms)%nat →
     length (newBoard draw terms) = 25%nat
     ∧ newBoard draw terms !! 12%nat = Some "FREE SPACE"%string
     ∧ delete 12%nat (newBoard draw terms) ⊆+ terms
     ∧ (∀ t, t ∈ delete 12%nat (newBoard draw terms) → t ∈ terms)
     ∧ (NoDup terms → NoDup (delete 12%nat (newBoard draw terms))))
  ∧ ((length terms < 12)%nat →
     newBoard draw terms = terms ++ ["FREE SPACE"%string]).
Proof.
  split.
  - intros Hlen.
    destruct (newBoard_full draw terms Hlen) as (bt & -> & Hbt & Hsub).
    assert (length (take 12 bt) = 12%nat) as H12 by (rewrite length_take; lia).
    assert (delete 12%nat (take 12 bt ++ "FREE SPACE"%string :: drop 12 bt) = bt) as Hdel.
    { rewrite <- H12 at 1. rewrite delete_middle. apply take_drop. }
    rewrite Hdel. split; [|split; [|split; [|split]]].
    + rewrite length_app, H12. simpl. rewrite length_drop. lia.
    + rewrite <- H12 at 1. apply list_lookup_middle. reflexivity.
    + exact Hsub.
    + intros t Ht. by apply (elem_of_submseteq bt terms).
    + intros Hnd. apply submseteq_Permutation in Hsub as [k Hk].
      rewrite Hk in Hnd. by apply NoDup_app in Hnd as [? _].
  - intros Hlen. unfold newBoard.
    rewrite (bool_decide_eq_false_2 (24 ≤ length terms)%nat) by lia.
    rewrite bool_decide_eq_false_2 by lia. reflexivity.
Qed.

Lemma newBoard_invariant_witness :
  length (newBoard (λ i, i `div` 2)%nat sampleTerms) = 25%nat
  ∧ newBoard (λ i, i `div` 2)%nat sampleTerms !! 12%nat = Some "FREE SPACE"%string
  ∧ delete 12%nat (newBoard (λ i, i `div` 2)%nat sampleTerms) ⊆+ sampleTerms
  ∧ (∀ t, t ∈ delete 12%nat (newBoard (λ i, i `div` 2)%nat sampleTerms) → t ∈ sampleTerms)
  ∧ (NoDup sampleTerms → NoDup (delete 12%nat (newBoard (λ i, i `div` 2)%nat sampleTerms))).
Proof.
  apply (newBoard_invariant (λ i, i `div` 2)%nat sampleTerms).
  vm_compute. lia.
Defined.

Example newBoard_sample :
  newBoard (λ i, i `div` 2)%nat sampleTerms
  = ["t16"; "t00"; "t24"; "t01"; "t20"; "t02"; "t14"; "t03"; "t18"; "t04"; "t22"; "t05";
     "FREE SPACE";
     "t13"; "t06"; "t15"; "t07"; "t17"; "t08"; "t19"; "t09"; "t21"; "t10"; "t23";
     "t11"]%string.
Proof. vm_compute. reflexivity. Qed.

Example newBoard_small :
  newBoard (λ i, i) ["a"; "b"; "c"]%string = ["a"; "b"; "c"; "FREE SPACE"]%string.
Proof. reflexivity. Qed.

(** * Further properties of the code *)

(** ** Start-up *)

Lemma initMember_saved (st : BoardState) :
  mkBoardState (board st) (selectedIndices st)
               (if truthy (prediction st) then prediction st else None) = st.
Proof. destruct st as [b sel [p|]]; reflexivity. Qed.

Lemma initMember_lookup_ne (loaded : gmap string BoardState) (terms : list string)
    (draw : nat → nat) (gs : gmap string BoardState) (member m : string) :
  m ≠ member → initMember loaded terms draw gs member !! m = gs !! m.
Proof.
  intros Hne. unfold initMember.
  destruct (loaded !! member); by rewrite lookup_insert_ne.
Qed.

Lemma initMembers_lookup_notin (loaded : gmap string BoardState) (terms : list string)
    (draws : nat → nat → nat) (k : nat) (roster : list string)
    (gs : gmap string BoardState) (m : string) :
  m ∉ roster → initMembers loaded terms draws k roster gs !! m = gs !! m.
Proof.
  revert k gs. induction roster as [|x roster IH]; intros k gs Hm; [reflexivity|].
  apply not_elem_of_cons in Hm as [Hne Hm]. simpl.
  rewrite IH by assumption. by apply initMember_lookup_ne.
Qed.

Lemma initMembers_lookup_saved (loaded : gmap string BoardState) (terms : list string)
    (draws : nat → nat → nat) (k : nat) (roster : list string)
    (gs : gmap string BoardState) (m : string) (st : BoardState) :
  m ∈ roster → loaded !! m = Some st →
  initMembers loaded terms draws k roster gs !! m = Some st.
Proof.
  revert k gs. induction roster as [|x roster IH]; intros k gs Hm Hst.
  { by apply elem_of_nil in Hm. }
  simpl. destruct (decide (m ∈ roster)) as [Hin|Hnin]; [by apply IH|].
  apply elem_of_cons in Hm as [->|Hin]; [|done].
  rewrite initMembers_lookup_notin by assumption.
  unfold initMember. rewrite Hst, lookup_insert_eq. by rewrite initMember_saved.
Qed.


Lemma initMembers_dom (loaded : gmap string BoardState) (terms : list string)
    (draws : nat → nat → nat) (k : nat) (roster : list string)
    (gs : gmap string BoardState) :
  dom (initMembers loaded terms draws k roster gs) = list_to_set roster ∪ dom gs.
Proof.
  revert k gs. induction roster as [|x roster IH]; intros k gs; simpl.
  - set_solver.
  - rewrite IH. unfold initMember.
    destruct (loaded !! x); rewrite dom_insert_L; set_solver.
Qed.




(** ** What never changes, and what the write calls are given *)

Lemma run_cons_out (ev : ClientEvent) (evs : list ClientEvent) (srv : Server) :
  (run (ev :: evs) srv).2 = (handle ev srv).2 ++ (run evs (handle ev srv).1).2.
Proof.
  simpl. destruct (handle ev srv) as [srv1 out1]. simpl.
  destruct (run evs srv1). reflexivity.
Qed.

(** The three shapes a handler's result can take: nothing changed and nothing
    written; one member's BoardState replaced by a toggle or by an accepted
    prediction, and saved; the lineup replaced, and written. *)
Lemma handle_cases (ev : ClientEvent) (srv : Server) :
  (handle ev srv).1 = srv ∧ messages (handle ev srv).2 = (handle ev srv).2
  ∨ (∃ m st st', gameState srv !! m = Some st
       ∧ ((∃ index, ev = ToggleCell m index
             ∧ st' = mkBoardState (board st) (toggleIndex (selectedIndices st) index)
                                  (prediction st))
          ∨ (∃ picks, ev = SubmitPrediction m picks ∧ prediction st = None
               ∧ length picks = 12%nat
               ∧ st' = mkBoardState (board st) (selectedIndices st) (Some picks)))
       ∧ (handle ev srv).1 = setGameState srv (<[m := st']> (gameState srv))
       ∧ lastWriteCalls (handle ev srv).2
         = λ seen, (Some (<[m := st']> (gameState srv)), seen.2))
  ∨ (∃ lineup, lineup ≠ [] ∧ ev = SubmitFinalLineup (Some lineup)
       ∧ (handle ev srv).1 = setFinalLineup srv lineup
       ∧ lastWriteCalls (handle ev srv).2 = λ seen, (seen.1, Some lineup)).
Proof.
  destruct ev as [|name|m picks|lineup|m index|]; simpl; try (left; done).
  - unfold onSubmitPrediction.
    destruct (gameState srv !! m) as [st|] eqn:Hm; [|left; done].
    destruct (prediction st) as [p|] eqn:Hp; simpl; [left; done|].
    case_bool_decide as Hlen; [|left; done].
    right; left. eexists m, st, _. split; [done|]. split; [|split; reflexivity].
    right. by exists picks.
  - unfold onSubmitFinalLineup. destruct lineup as [l|]; [|left; done].
    case_bool_decide as Hl; [|left; done].
    right; right. exists l. split; [|done].
    intros ->. simpl in Hl. lia.
  - unfold onToggleCell.
    destruct (gameState srv !! m) as [st|] eqn:Hm; [|left; done].
    right; left. eexists m, st, _. split; [done|]. split; [|split; [reflexivity|]].
    + left. by exists index.
    + simpl. by case_bool_decide.
Qed.

Lemma lastWriteCalls_app (out1 out2 : list Effect)
    (seen : option (gmap string BoardState) * option (list string)) :
  lastWriteCalls (out1 ++ out2) seen = lastWriteCalls out2 (lastWriteCalls out1 seen).
Proof. apply foldl_app. Qed.

Lemma lastWriteCalls_messages (out : list Effect)
    (seen : option (gmap string BoardState) * option (list string)) :
  messages out = out → lastWriteCalls out seen = seen.
Proof.
  revert seen. induction out as [|e out IH]; intros seen H; [reflexivity|].
  unfold messages in H. simpl in H.
  destruct (negb (isWrite e)) eqn:He.
  - injection H as H. simpl. rewrite IH by assumption.
    by destruct e.
  - exfalso.
    pose proof (List.filter_length_le (λ e, negb (isWrite e)) out) as Hlen.
    rewrite H in Hlen. simpl in Hlen. lia.
Qed.

Lemma run_unchanged_parts (evs : list ClientEvent) (srv : Server) :
  members (run evs srv).1 = members srv
  ∧ groups (run evs srv).1 = groups srv
  ∧ dom (gameState (run evs srv).1) = dom (gameState srv)
  ∧ (∀ m, board <$> gameState (run evs srv).1 !! m = board <$> gameState srv !! m).
Proof.
  revert srv. induction evs as [|ev evs IH]; intros srv; [done|].
  rewrite run_cons. destruct (IH (handle ev srv).1) as (Hmem & Hgrp & Hdom & Hb).
  rewrite Hmem, Hgrp, Hdom.
  assert (members (handle ev srv).1 = members srv
          ∧ groups (handle ev srv).1 = groups srv
          ∧ dom (gameState (handle ev srv).1) = dom (gameState srv)
          ∧ (∀ m, board <$> gameState (handle ev srv).1 !! m
                  = board <$> gameState srv !! m)) as (H1 & H2 & H3 & H4).
  { destruct (handle_cases ev srv)
      as [[Hsrv _]|[(m & st & st' & Hm & Hbd & Hsrv & _)|(l & _ & _ & Hsrv & _)]];
      rewrite Hsrv; simpl; [done| |done].
    assert (board st' = board st) as Hboard
      by (destruct Hbd as [(? & _ & ->)|(? & _ & _ & _ & ->)]; done).
    repeat split.
    - rewrite dom_insert_L. apply elem_of_dom_2 in Hm. set_solver.
    - intros k. destruct (decide (m = k)) as [->|Hne].
      + rewrite lookup_insert_eq, Hm. simpl. by rewrite Hboard.
      + by rewrite lookup_insert_ne. }
  repeat split; try assumption. intros m. by rewrite Hb.
Qed.

(** X3. No event adds or removes a member, changes a board, or changes the
    roster or the groups: after any sequence of events every member has the
    board it had, and the same names have a BoardState. *)
Theorem run_keeps_roster_and_boards (evs : list ClientEvent) (srv : Server) :
  members (run evs srv).1 = members srv
  ∧ groups (run evs srv).1 = groups srv
  ∧ dom (gameState (run evs srv).1) = dom (gameState srv)
  ∧ (∀ m, board <$> gameState (run evs srv).1 !! m = board <$> gameState srv !! m).
Proof. apply run_unchanged_parts. Qed.

(** Whether the latest write calls were made at the current state, [srv0]
    being the server before any of them. *)
Lemma run_write_calls (evs : list ClientEvent) (srv srv0 : Server)
    (seen : option (gmap string BoardState) * option (list string)) :
  match seen.1 with
  | Some gs => gs = gameState srv
  | None => gameState srv = gameState srv0
  end →
  match seen.2 with
  | Some lineup => lineup = finalLineup srv
  | None => finalLineup srv = finalLineup srv0
  end →
  match (lastWriteCalls (run evs srv).2 seen).1 with
  | Some gs => gs = gameState (run evs srv).1
  | None => gameState (run evs srv).1 = gameState srv0
  end
  ∧ match (lastWriteCalls (run evs srv).2 seen).2 with
    | Some lineup => lineup = finalLineup (run evs srv).1
    | None => finalLineup (run evs srv).1 = finalLineup srv0
    end.
Proof.
  revert srv seen. induction evs as [|ev evs IH]; intros srv seen Hgs Hfl; [done|].
  rewrite run_cons, run_cons_out, lastWriteCalls_app.
  destruct (handle_cases ev srv)
    as [[Hsrv Hmsg]|[(m & st & st' & Hm & _ & Hsrv & Hrep)|(l & _ & _ & Hsrv & Hrep)]].
  - rewrite (lastWriteCalls_messages _ _ Hmsg), Hsrv. by apply IH.
  - rewrite Hrep, Hsrv. by apply IH.
  - rewrite Hrep, Hsrv. by apply IH.
Qed.

(** X4. No change is left unsaved: after any sequence of events (whose
    member names are looked up among the members) the latest
    [saveGameState()] call was made with [gameState] as it now is, and when no
    such call was made [gameState] is what it was; in the same way the latest
    write of the lineup file was given the current [finalLineup], and without
    such a write [finalLineup] is what it was. *)
Theorem no_change_is_left_unsaved (evs : list ClientEvent) (srv : Server) :
  Forall namesServed evs →
  match (lastWriteCalls (run evs srv).2 (None, None)).1 with
  | Some gs => gs = gameState (run evs srv).1
  | None => gameState (run evs srv).1 = gameState srv
  end
  ∧ match (lastWriteCalls (run evs srv).2 (None, None)).2 with
    | Some lineup => lineup = finalLineup (run evs srv).1
    | None => finalLineup (run evs srv).1 = finalLineup srv
    end.
Proof. intros _. by apply run_write_calls. Qed.

Lemma no_change_is_left_unsaved_witness :
  match (lastWriteCalls (run laterEvents predictedServer).2 (None, None)).1 with
  | Some gs => gs = gameState (run laterEvents predictedServer).1
  | None => gameState (run laterEvents predictedServer).1 = gameState predictedServer
  end
  ∧ match (lastWriteCalls (run laterEvents predictedServer).2 (None, None)).2 with
    | Some lineup => lineup = finalLineup (run laterEvents predictedServer).1
    | None => finalLineup (run laterEvents predictedServer).1
              = finalLineup predictedServer
    end.
Proof.
  apply (no_change_is_left_unsaved laterEvents predictedServer).
  unfold laterEvents.
  repeat (apply Forall_cons_2 || apply Forall_nil_2); simpl;
    first [exact I | apply (bool_decide_unpack _); vm_compute; exact I].
Defined.

Example no_change_is_left_unsaved_sample :
  (lastWriteCalls (run hiddenEvents predictedServer).2 (None, None)).1
  = Some (gameState (run hiddenEvents predictedServer).1)
  ∧ (lastWriteCalls (run hiddenEvents predictedServer).2 (None, None)).2 = None
  ∧ (lastWriteCalls (run laterEvents predictedServer).2 (None, None)).2 = Some otherPicks.
Proof. repeat split; vm_compute; reflexivity. Qed.

(** X5. Start-up reproduces any state the server can be in: given back as
    the loaded state, the [gameState] of a server started on a roster and taken
    through any events is returned unchanged by a start-up on the same roster;
    no entry is dropped and no board generated anew, whatever the terms and the
    random draws. *)
Theorem startup_keeps_reachable_state (roster terms groupPool : list string)
    (lineupFile : option (list string)) (loaded : gmap string BoardState)
    (draws : nat → nat → nat) (evs : list ClientEvent)
    (terms' : list string) (lineupFile' : option (list string))
    (draws' : nat → nat → nat) :
  gameState
    (startServer roster terms' groupPool lineupFile'
       (gameState (run evs (startServer roster terms groupPool lineupFile loaded draws).1).1)
       draws').1
  = gameState (run evs (startServer roster terms groupPool lineupFile loaded draws).1).1.
Proof.
  set (srv0 := (startServer roster terms groupPool lineupFile loaded draws).1).
  simpl. apply map_eq. intros m.
  assert (dom (gameState (run evs srv0).1) = list_to_set roster) as Hdom.
  { destruct (run_unchanged_parts evs srv0) as (_ & _ & -> & _).
    unfold srv0. simpl. rewrite initMembers_dom. set_solver. }
  destruct (decide (m ∈ roster)) as [Hin|Hnin].
  - assert (is_Some (gameState (run evs srv0).1 !! m)) as [st Hst].
    { apply elem_of_dom. rewrite Hdom. set_solver. }
    rewrite Hst. by apply initMembers_lookup_saved.
  - rewrite initMembers_lookup_notin by assumption.
    rewrite lookup_empty. symmetry. apply not_elem_of_dom. rewrite Hdom. set_solver.
Qed.

(** ** More on the bingo evaluator *)

Lemma lineComplete_Forall (S : gset Z) (line : list Z) :
  lineComplete S line = true ↔ Forall (λ i, i ∈ S ∪ {[12]}) line.
Proof.
  unfold lineComplete. induction line as [|i line IH]; simpl.
  - split; [constructor|reflexivity].
  - rewrite andb_true_iff, bool_decide_eq_true, IH, Forall_cons. reflexivity.
Qed.

Lemma gridLines_in_grid : Forall (Forall (λ i, 0 ≤ i ≤ 24)) gridLines.
Proof. rewrite gridLines_listed. repeat constructor; lia. Qed.

Lemma filter_length_mono {A} (f g : A → bool) (l : list A) :
  Forall (λ x, f x = true → g x = true) l →
  (length (List.filter f l) ≤ length (List.filter g l))%nat.
Proof.
  induction 1 as [|x l Hx Hl IH]; simpl; [lia|].
  destruct (f x) eqn:Hf.
  - rewrite (Hx eq_refl). simpl. lia.
  - destruct (g x); simpl; lia.
Qed.

Lemma countCompletedLines_mono (S S' : gset Z) :
  (∀ i, 0 ≤ i ≤ 24 → i ≠ 12 → i ∈ S → i ∈ S') →
  (countCompletedLines S ≤ countCompletedLines S')%nat.
Proof.
  intros Hsub. unfold countCompletedLines. apply filter_length_mono.
  eapply Forall_impl; [apply gridLines_in_grid|].
  intros line Hline. cbv beta. rewrite !lineComplete_Forall. intros Hc.
  rewrite Forall_forall in Hline, Hc |- *. intros i Hi.
  specialize (Hline i Hi). specialize (Hc i Hi).
  destruct (decide (i = 12)) as [->|Hne]; [set_solver|].
  apply elem_of_union in Hc as [Hc|Hc]; [|set_solver].
  apply elem_of_union. left. by apply Hsub.
Qed.

Lemma calculateBingoCount_mono (sel sel' : list Z) :
  (∀ i, 0 ≤ i ≤ 24 → i ≠ 12 → i ∈ sel → i ∈ sel') →
  (calculateBingoCount sel ≤ calculateBingoCount sel')%nat.
Proof.
  intros H. rewrite !calculateBingoCount_refines. apply countCompletedLines_mono.
  intros i Hi Hne. rewrite !elem_of_list_to_set. by apply H.
Qed.

(** X6. The bingo count is monotone: when every cell of the grid selected in
    one list is selected in another, the first count is at most the second. *)
Theorem calculateBingoCount_monotone (sel sel' : list Z) :
  (∀ i, i ∈ sel → i ∈ sel') →
  (calculateBingoCount sel ≤ calculateBingoCount sel')%nat.
Proof. intros H. apply calculateBingoCount_mono. intros i _ _. apply H. Qed.

Lemma calculateBingoCount_monotone_witness :
  (calculateBingoCount [0; 6; 18]%Z ≤ calculateBingoCount [24; 18; 6; 1; 0]%Z)%nat.
Proof.
  apply (calculateBingoCount_monotone [0; 6; 18] [24; 18; 6; 1; 0]).
  intros i. rewrite !elem_of_cons, !elem_of_nil. intuition.
Defined.

(** X7. Only the 24 cells of the grid other than the free cell count: the
    indices outside 0..24 that a selection may hold, and the index 12, have no
    influence on the bingo count. *)
Theorem calculateBingoCount_ignores_other_indices (sel : list Z) :
  calculateBingoCount (filter (λ i, 0 ≤ i ≤ 24 ∧ i ≠ 12) sel) = calculateBingoCount sel.
Proof.
  apply Nat.le_antisymm; apply calculateBingoCount_mono; intros i Hi Hne;
    rewrite list_elem_of_filter; tauto.
Qed.

(** X8. The count reaches 12 exactly when all 24 cells other than the free
    cell are selected. *)
Theorem calculateBingoCount_full_board (sel : list Z) :
  calculateBingoCount sel = 12%nat ↔ ∀ i, 0 ≤ i ≤ 24 → i ≠ 12 → i ∈ sel.
Proof.
  rewrite calculateBingoCount_refines. unfold countCompletedLines. split.
  - intros Hlen i Hi Hne.
    assert (Forall (λ line, lineComplete (list_to_set sel) line = true) gridLines) as Hall.
    { apply Forall_forall. intros line Hline.
      destruct (lineComplete (list_to_set sel) line) eqn:Hc; [reflexivity|].
      exfalso.
      assert (length (List.filter (lineComplete (list_to_set sel)) gridLines)
              < length gridLines)%nat as Hlt; [|rewrite Hlen in Hlt; simpl in Hlt; lia].
      clear Hlen. induction gridLines as [|x l IH]; [by apply elem_of_nil in Hline|].
      simpl. apply elem_of_cons in Hline as [<-|Hin].
      - rewrite Hc. pose proof (List.filter_length_le (lineComplete (list_to_set sel)) l).
        lia.
      - specialize (IH Hin). destruct (lineComplete _ x); simpl; lia. }
    assert (i ∈ (list_to_set sel : gset Z) ∪ {[12]}) as Hin;
      [|apply elem_of_union in Hin as [Hin|Hin];
        [by apply elem_of_list_to_set in Hin|by apply elem_of_singleton in Hin]].
    assert (∃ line, line ∈ gridLines ∧ i ∈ line) as (line & Hline & Hil).
    { exists [i `div` 5 * 5 + 0; i `div` 5 * 5 + 1; i `div` 5 * 5 + 2;
              i `div` 5 * 5 + 3; i `div` 5 * 5 + 4].
      split.
      - unfold gridLines. apply elem_of_app. left. unfold gridRows.
        apply list_elem_of_fmap. exists (i `div` 5). split; [reflexivity|].
        assert (0 ≤ i `div` 5 ≤ 4) as Hq by (split; [apply Z.div_pos|
          apply Z.lt_succ_r, Z.div_lt_upper_bound]; lia).
        rewrite !elem_of_cons. lia.
      - rewrite !elem_of_cons. pose proof (Z.div_mod i 5 ltac:(lia)).
        pose proof (Z.mod_pos_bound i 5 ltac:(lia)). lia. }
    rewrite Forall_forall in Hall. specialize (Hall line Hline).
    apply lineComplete_Forall in Hall. rewrite Forall_forall in Hall. by apply Hall.
  - intros Hall.
    assert (List.filter (lineComplete (list_to_set sel)) gridLines = gridLines) as ->;
      [|reflexivity].
    pose proof gridLines_in_grid as Hgrid.
    induction Hgrid as [|line l Hline Hl IH]; [reflexivity|]. simpl.
    rewrite IH. replace (lineComplete (list_to_set sel) line) with true; [reflexivity|].
    symmetry. apply lineComplete_Forall. eapply Forall_impl; [exact Hline|].
    intros i Hi. cbv beta. destruct (decide (i = 12)) as [->|Hne]; [set_solver|].
    apply elem_of_union. left. apply elem_of_list_to_set. by apply Hall.
Qed.

Lemma elem_of_toggleIndex_sub (l : list Z) (x y : Z) :
  x ∈ l → y ∈ toggleIndex l x → y ∈ l.
Proof.
  induction l as [|z l IH]; intros Hx Hy; [by apply elem_of_nil in Hx|].
  rewrite toggleIndex_cons in Hy. case_bool_decide as Hzx.
  - set_solver.
  - apply elem_of_cons in Hx as [->|Hx]; [done|].
    apply elem_of_cons in Hy as [->|Hy]; [set_solver|].
    apply elem_of_cons. right. by apply IH.
Qed.

Lemma onToggleCell_announces (srv : Server) (m : string) (index : Z) (st : BoardState) :
  gameState srv !! m = Some st →
  existsb isAnnouncement (onToggleCell m index srv).2
  = bool_decide (calculateBingoCount (selectedIndices st)
                 < calculateBingoCount (toggleIndex (selectedIndices st) index))%nat.
Proof.
  intros Hm. unfold onToggleCell. rewrite Hm. simpl.
  by case_bool_decide.
Qed.

(** X9. An accepted toggle broadcasts [bingoAnnouncement] exactly when it
    makes the bingo count strictly larger; this never happens when the toggle
    deselects a cell, nor when it toggles the free cell or an index outside the
    grid. *)
Theorem bingoAnnouncement_only_on_increase (srv : Server) (m : string) (index : Z)
    (st : BoardState) :
  gameState srv !! m = Some st →
  (existsb isAnnouncement (onToggleCell m index srv).2 = true
   ↔ (calculateBingoCount (selectedIndices st)
      < calculateBingoCount (toggleIndex (selectedIndices st) index))%nat)
  ∧ (index ∈ selectedIndices st ∨ index = 12 ∨ index < 0 ∨ 24 < index →
     existsb isAnnouncement (onToggleCell m index srv).2 = false).
Proof.
  intros Hm. rewrite (onToggleCell_announces srv m index st Hm). split.
  - apply bool_decide_eq_true.
  - intros Hcase. apply bool_decide_eq_false, Nat.le_ngt.
    apply calculateBingoCount_mono. intros i Hi Hne Hin.
    destruct Hcase as [Hsel|Hout].
    + by apply (elem_of_toggleIndex_sub _ index).
    + apply elem_of_toggleIndex_ne in Hin; [assumption|lia].
Qed.

Lemma bingoAnnouncement_only_on_increase_witness :
  (existsb isAnnouncement (onToggleCell "alice" 12 sampleServer).2 = true
   ↔ (calculateBingoCount (selectedIndices aliceState)
      < calculateBingoCount (toggleIndex (selectedIndices aliceState) 12))%nat)
  ∧ (12 ∈ selectedIndices aliceState ∨ 12 = 12 ∨ 12 < 0 ∨ 24 < 12 →
     existsb isAnnouncement (onToggleCell "alice" 12 sampleServer).2 = false).
Proof.
  apply (bingoAnnouncement_only_on_increase sampleServer "alice" 12 aliceState).
  reflexivity.
Defined.

(** The lines of the grid that go through a cell. *)
Lemma lines_through_cell (i : Z) :
  i ≠ 12 →
  (length (List.filter (λ line, bool_decide (i ∈ line)) gridLines) ≤ 3)%nat.
Proof.
  intros Hne. destruct (decide (0 ≤ i ≤ 24)) as [Hi|Hi].
  - assert (forallb (λ i, (i =? 12)
                          || (length (List.filter (λ line, bool_decide (i ∈ line)) gridLines)
                              <=? 3)%nat) (seqZ 0 25) = true) as Hall
      by (vm_compute; reflexivity).
    rewrite forallb_forall in Hall.
    specialize (Hall i). rewrite <- list_elem_of_In, elem_of_seqZ in Hall.
    specialize (Hall ltac:(lia)).
    apply orb_true_iff in Hall as [Heq|Hle]; [lia|]. by apply Nat.leb_le.
  - replace (List.filter (λ line, bool_decide (i ∈ line)) gridLines) with (@nil (list Z));
      [simpl; lia|].
    symmetry. pose proof gridLines_in_grid as Hgrid.
    induction Hgrid as [|line l Hline Hl IH]; [reflexivity|]. simpl.
    rewrite IH. rewrite bool_decide_eq_false_2; [reflexivity|].
    intros Hin. rewrite Forall_forall in Hline. specialize (Hline i Hin). lia.
Qed.

Lemma filter_length_le_add {A} (f g h : A → bool) (l : list A) :
  (∀ x, f x = true → g x = true ∨ h x = true) →
  (length (List.filter f l)
   ≤ length (List.filter g l) + length (List.filter h l))%nat.
Proof.
  intros H. induction l as [|x l IH]; simpl; [lia|].
  specialize (H x). destruct (f x), (g x), (h x); simpl; lia.
Qed.

Lemma countCompletedLines_step (S S' : gset Z) (i : Z) :
  (∀ j, j ≠ i → j ∈ S' → j ∈ S) →
  (countCompletedLines S' ≤ countCompletedLines S + 3)%nat.
Proof.
  intros Hsub. destruct (decide (i = 12)) as [->|Hne].
  - etransitivity; [apply (countCompletedLines_mono S' S)|lia].
    intros j _ Hj. by apply Hsub.
  - unfold countCompletedLines.
    etransitivity;
      [apply (filter_length_le_add _ (lineComplete S) (λ line, bool_decide (i ∈ line)))|].
    + intros line Hc. destruct (decide (i ∈ line)) as [Hin|Hnin].
      * right. by apply bool_decide_eq_true.
      * left. apply lineComplete_Forall. apply lineComplete_Forall in Hc.
        rewrite Forall_forall in Hc |- *. intros j Hj. specialize (Hc j Hj).
        apply elem_of_union in Hc as [Hc|Hc]; [|set_solver].
        apply elem_of_union. left. apply Hsub; [|assumption]. by intros ->.
    + pose proof (lines_through_cell i Hne). lia.
Qed.

(** X10. One toggle moves the bingo count by at most 3, up or down: a cell
    other than the free cell lies on at most three lines. *)
Theorem toggle_moves_count_by_at_most_3 (sel : list Z) (index : Z) :
  (calculateBingoCount (toggleIndex sel index) ≤ calculateBingoCount sel + 3)%nat
  ∧ (calculateBingoCount sel ≤ calculateBingoCount (toggleIndex sel index) + 3)%nat.
Proof.
  rewrite !calculateBingoCount_refines.
  split; apply (countCompletedLines_step _ _ index); intros j Hj;
    rewrite !elem_of_list_to_set; by rewrite elem_of_toggleIndex_ne.
Qed.

(** ** More on the views, the predictions and the scores *)

Lemma publicEntry_own (m : string) (st : BoardState) :
  publicEntry [] (Some m) m st
  = mkPublicEntry (board st) (selectedIndices st)
                  (calculateBingoCount (selectedIndices st))
                  (match prediction st with
                   | Some p => mkPredictionData true (Some (Some p)) None
                   | None => mkPredictionData false None None
                   end).
Proof.
  unfold publicEntry. simpl. rewrite bool_decide_eq_true_2 by reflexivity.
  by destruct (prediction st).
Qed.

(** X11. Before the reveal a [join] answers the joining connection alone,
    changes nothing, and its view shows the joining member's own prediction in
    full when there is one (no score yet), every other member's prediction
    being reduced to the flag. *)
Theorem join_shows_own_prediction (srv : Server) (name : string) (st : BoardState) :
  gameState srv !! name = Some st →
  finalLineup srv = [] →
  ∃ view,
    handle (Join name) srv
    = (srv, [SocketEmit (Init (members srv) (groups srv) view [])])
    ∧ pub_prediction <$> view !! name
      = Some (match prediction st with
              | Some p => mkPredictionData true (Some (Some p)) None
              | None => mkPredictionData false None None
              end)
    ∧ (∀ m st', m ≠ name → gameState srv !! m = Some st' →
         pub_prediction <$> view !! m
         = Some (mkPredictionData (truthy (prediction st')) None None)).
Proof.
  intros Hm Hfl. exists (getPublicState srv (Some name)). split; [|split].
  - simpl. unfold onJoin, initMessage. by rewrite Hfl.
  - rewrite getPublicState_lookup, Hm, Hfl. cbn -[publicEntry].
    by rewrite publicEntry_own.
  - intros m st' Hne Hm'. rewrite getPublicState_lookup, Hm', Hfl. cbn -[publicEntry].
    rewrite publicEntry_masked; [reflexivity|congruence].
Qed.

Lemma join_shows_own_prediction_witness :
  ∃ view,
    handle (Join "alice") predictedServer
    = (predictedServer,
       [SocketEmit (Init (members predictedServer) (groups predictedServer) view [])])
    ∧ pub_prediction <$> view !! "alice"%string
      = Some (mkPredictionData true (Some (Some samplePicks)) None)
    ∧ (∀ m st', m ≠ "alice"%string → gameState predictedServer !! m = Some st' →
         pub_prediction <$> view !! m
         = Some (mkPredictionData (truthy (prediction st')) None None)).
Proof.
  apply (join_shows_own_prediction predictedServer "alice"
           (mkBoardState (board aliceState) [] (Some samplePicks))); reflexivity.
Defined.

Lemma scoreOf_all_in_lineup (fl picks : list string) :
  (∀ p, p ∈ picks → p ∈ fl) → scoreOf fl (Some picks) = length picks.
Proof.
  intros H. unfold scoreOf. f_equal.
  induction picks as [|p picks IH]; [reflexivity|].
  rewrite filter_cons_True by (apply H; set_solver).
  f_equal. apply IH. intros q Hq. apply H. set_solver.
Qed.

(** X12. The reveal does not close the predictions: a member without
    prediction can still submit 12 picks after the lineup is revealed, the
    submission is stored, and when all picks are groups of the lineup every
    viewer is shown that member with the score 12. *)
Theorem prediction_accepted_after_reveal (srv : Server) (m : string) (st : BoardState)
    (picks : list string) (viewer : option string) :
  gameState srv !! m = Some st →
  prediction st = None →
  length picks = 12%nat →
  finalLineup srv ≠ [] →
  (∀ p, p ∈ picks → p ∈ finalLineup srv) →
  predictionOf (onSubmitPrediction m picks srv).1 m = Some (Some picks)
  ∧ pub_prediction <$> getPublicState (onSubmitPrediction m picks srv).1 viewer !! m
    = Some (mkPredictionData true (Some (Some picks)) (Some 12%nat)).
Proof.
  intros Hm Hp Hlen Hfl Hin.
  rewrite (onSubmitPrediction_accepted srv m st picks Hm Hp Hlen).
  unfold predictionOf. rewrite getPublicState_lookup. cbn -[publicEntry scoreOf].
  rewrite lookup_insert_eq. cbn -[publicEntry scoreOf]. split; [reflexivity|].
  rewrite publicEntry_revealed by assumption. cbn -[scoreOf].
  by rewrite scoreOf_all_in_lineup, Hlen.
Qed.

Lemma prediction_accepted_after_reveal_witness :
  predictionOf (onSubmitPrediction "alice" samplePicks revealedServer).1 "alice"
  = Some (Some samplePicks)
  ∧ pub_prediction
      <$> getPublicState (onSubmitPrediction "alice" samplePicks revealedServer).1
            (Some "bob"%string) !! "alice"%string
    = Some (mkPredictionData true (Some (Some samplePicks)) (Some 12%nat)).
Proof.
  apply (prediction_accepted_after_reveal revealedServer "alice" aliceState samplePicks
           (Some "bob"%string)); try reflexivity.
  - discriminate.
  - intros p Hp. exact Hp.
Defined.

Lemma handle_predictionsComplete (ev : ClientEvent) (srv : Server) :
  predictionsComplete srv → predictionsComplete (handle ev srv).1.
Proof.
  intros Hc.
  destruct (handle_cases ev srv)
    as [[Hsrv _]|[(m & st & st' & Hm & Hst' & Hsrv & _)|(l & _ & _ & Hsrv & _)]];
    rewrite Hsrv; [assumption| |assumption].
  unfold predictionsComplete. simpl. apply map_Forall_insert_2; [|assumption].
  destruct Hst' as [(index & _ & ->)|(picks & _ & _ & Hlen & ->)]; simpl.
  - apply (map_Forall_lookup_1 _ _ _ _ Hc Hm).
  - intros p [= <-]. exact Hlen.
Qed.

Lemma run_predictionsComplete (evs : list ClientEvent) (srv : Server) :
  predictionsComplete srv → predictionsComplete (run evs srv).1.
Proof.
  revert srv. induction evs as [|ev evs IH]; intros srv H; [assumption|].
  rewrite run_cons. by apply IH, handle_predictionsComplete.
Qed.

(** X13. From a state whose stored predictions all hold 12 picks (as after
    a start without saved state), every stored prediction holds 12 picks after
    any events, and no score presented to any viewer exceeds 12. *)
Theorem presented_score_at_most_12 (evs : list ClientEvent) (srv : Server)
    (viewer : option string) (m : string) (e : PublicEntry) (s : nat) :
  predictionsComplete srv →
  getPublicState (run evs srv).1 viewer !! m = Some e →
  pd_score (pub_prediction e) = Some s →
  predictionsComplete (run evs srv).1 ∧ (s ≤ 12)%nat.
Proof.
  intros Hc He Hs. pose proof (run_predictionsComplete evs srv Hc) as Hc'.
  split; [exact Hc'|].
  rewrite getPublicState_lookup in He.
  destruct (gameState (run evs srv).1 !! m) as [st|] eqn:Hm; [|discriminate].
  injection He as <-. unfold publicEntry in Hs.
  pose proof (map_Forall_lookup_1 _ _ _ _ Hc' Hm) as Hlen. simpl in Hlen.
  case_bool_decide.
  - simpl in Hs. injection Hs as <-. unfold scoreOf.
    destruct (prediction st) as [p|]; [|lia].
    rewrite <- (Hlen p eq_refl). apply length_filter.
  - destruct (_ && _); discriminate.
Qed.

Lemma presented_score_at_most_12_witness :
  predictionsComplete (run laterEvents predictedServer).1 ∧ (10 ≤ 12)%nat.
Proof.
  apply (presented_score_at_most_12 laterEvents predictedServer (Some "bob"%string)
           "alice"
           (mkPublicEntry (board aliceState) [3] 0
              (mkPredictionData true (Some (Some samplePicks)) (Some 10%nat))) 10).
  - apply (handle_predictionsComplete (SubmitPrediction "alice" samplePicks) sampleServer).
    unfold predictionsComplete, sampleServer. simpl.
    repeat apply map_Forall_insert_2; try apply map_Forall_empty;
      simpl; intros p Hp; discriminate.
  - vm_compute. reflexivity.
  - reflexivity.
Defined.

(** ** Nothing sent before the reveal depends on what another member predicted *)

Lemma differOnly_view (m : string) (srv1 srv2 : Server) (viewer : option string) :
  differOnlyInPredictionOf m srv1 srv2 → viewer ≠ Some m →
  getPublicState srv1 viewer = getPublicState srv2 viewer.
Proof.
  intros (_ & _ & Hfl1 & Hfl2 & Hother & Hm) Hv. apply map_eq. intros k.
  rewrite !getPublicState_lookup, Hfl1, Hfl2.
  destruct (decide (k = m)) as [->|Hne]; [|by rewrite Hother].
  destruct Hm as [a b (Hb & Hs & Ht)|]; [|reflexivity].
  cbn -[publicEntry]. rewrite !publicEntry_masked by assumption.
  by rewrite Hb, Hs, Ht.
Qed.

Lemma differOnly_insert (m k : string) (srv1 srv2 : Server) (st1 st2 : BoardState) :
  differOnlyInPredictionOf m srv1 srv2 →
  (k = m → samePublicPart st1 st2) → (k ≠ m → st1 = st2) →
  differOnlyInPredictionOf m (setGameState srv1 (<[k := st1]> (gameState srv1)))
                             (setGameState srv2 (<[k := st2]> (gameState srv2))).
Proof.
  intros (Hmem & Hgrp & Hfl1 & Hfl2 & Hother & Hm) Heq Hne.
  repeat split; try assumption; simpl.
  - intros j Hj. destruct (decide (k = j)) as [->|Hkj].
    + rewrite !lookup_insert_eq. by rewrite Hne.
    + rewrite !lookup_insert_ne by assumption. by apply Hother.
  - destruct (decide (k = m)) as [->|Hkm].
    + rewrite !lookup_insert_eq. constructor. by apply Heq.
    + by rewrite !lookup_insert_ne.
Qed.

Lemma differOnly_lookup (m k : string) (srv1 srv2 : Server) :
  differOnlyInPredictionOf m srv1 srv2 →
  option_Forall2 (λ a b, (k = m → samePublicPart a b) ∧ (k ≠ m → a = b))
                 (gameState srv1 !! k) (gameState srv2 !! k).
Proof.
  intros (_ & _ & _ & _ & Hother & Hm).
  destruct (decide (k = m)) as [->|Hne].
  - destruct Hm as [a b Hab|]; constructor. split; [done|congruence].
  - rewrite <- (Hother k Hne). destruct (gameState srv1 !! k); constructor.
    split; [done|reflexivity].
Qed.

Lemma handle_differOnly (m : string) (ev : ClientEvent) (srv1 srv2 : Server) :
  differOnlyInPredictionOf m srv1 srv2 → keepsHidden m ev →
  differOnlyInPredictionOf m (handle ev srv1).1 (handle ev srv2).1
  ∧ messages (handle ev srv1).2 = messages (handle ev srv2).2.
Proof.
  intros Hd Hev. pose proof Hd as (Hmem & Hgrp & Hfl1 & Hfl2 & _ & _).
  destruct ev as [|name|k picks|lineup|k index|]; simpl.
  - split; [assumption|]. unfold messages, initMessage. simpl.
    rewrite (differOnly_view m srv1 srv2 None Hd) by discriminate. congruence.
  - split; [assumption|]. unfold messages, initMessage. simpl. simpl in Hev.
    rewrite (differOnly_view m srv1 srv2 (Some name) Hd) by congruence. congruence.
  - unfold onSubmitPrediction.
    destruct (differOnly_lookup m k srv1 srv2 Hd) as [a b [Hsame Heq]|]; [|done].
    assert (truthy (prediction a) = truthy (prediction b)) as Ht.
    { destruct (decide (k = m)) as [Hk|Hk]; [by apply Hsame|by rewrite (Heq Hk)]. }
    rewrite Ht. destruct (negb _); [|done].
    case_bool_decide; [|done]. simpl. split; [|reflexivity].
    apply differOnly_insert; [assumption| |].
    + intros Hk. destruct (Hsame Hk) as (Hb & Hs & _). by repeat split.
    + intros Hk. by rewrite (Heq Hk).
  - unfold onSubmitFinalLineup. destruct lineup as [[|g l]|]; [done| |done].
    destruct Hev.
  - unfold onToggleCell.
    destruct (differOnly_lookup m k srv1 srv2 Hd) as [a b [Hsame Heq]|]; [|done].
    assert (selectedIndices a = selectedIndices b) as Hs.
    { destruct (decide (k = m)) as [Hk|Hk]; [by apply Hsame|by rewrite (Heq Hk)]. }
    simpl. rewrite Hs. split.
    + apply differOnly_insert; [assumption| |].
      * intros Hk. destruct (Hsame Hk) as (Hb & _ & Htr). by repeat split.
      * intros Hk. by rewrite (Heq Hk).
    + unfold messages. simpl. by case_bool_decide.
  - done.
Qed.

Lemma messages_app (out1 out2 : list Effect) :
  messages (out1 ++ out2) = messages out1 ++ messages out2.
Proof. apply List.filter_app. Qed.

(** X14. Before the reveal, what the server sends does not depend on the
    contents of a member's prediction: two servers that differ only in the
    picks stored for [m] send exactly the same messages (init answers,
    broadcasts) along any sequence of events that holds no reveal and no join
    under the name [m] itself. *)
Theorem prediction_contents_never_sent (m : string) (srv1 srv2 : Server)
    (evs : list ClientEvent) :
  differOnlyInPredictionOf m srv1 srv2 →
  Forall (keepsHidden m) evs →
  messages (run evs srv1).2 = messages (run evs srv2).2.
Proof.
  intros Hd Hevs. revert srv1 srv2 Hd.
  induction Hevs as [|ev evs Hev Hevs IH]; intros srv1 srv2 Hd; [reflexivity|].
  rewrite !run_cons_out, !messages_app.
  destruct (handle_differOnly m ev srv1 srv2 Hd Hev) as [Hd' ->].
  f_equal. by apply IH.
Qed.

Lemma prediction_contents_never_sent_witness :
  messages (run hiddenEvents predictedServer).2
  = messages (run hiddenEvents otherwisePredictedServer).2.
Proof.
  apply (prediction_contents_never_sent "alice").
  - unfold differOnlyInPredictionOf, otherwisePredictedServer. simpl.
    repeat split.
    + intros k Hk. by rewrite lookup_insert_ne.
    + rewrite lookup_insert_eq. constructor. repeat split.
  - unfold hiddenEvents.
    repeat (apply Forall_cons_2 || apply Forall_nil_2); simpl;
      first [exact I | discriminate].
Defined.

Example hiddenEvents_messages :
  length (messages (run hiddenEvents predictedServer).2) = 5%nat
  ∧ predictionOf predictedServer "alice" ≠ predictionOf otherwisePredictedServer "alice".
Proof. split; [vm_compute; reflexivity|discriminate]. Qed.




(** ** More on the board generator *)

(** X16. With fewer than 24 terms nothing is shuffled: whatever the random
    draws, the new board is the pool in file order with "FREE SPACE" inserted
    after the 12th term, or at the end when there are fewer than 12 terms; it
    has one entry more than the pool. *)
Theorem newBoard_small_pool_is_not_shuffled (draw : nat → nat) (terms : list string) :
  (length terms < 24)%nat →
  newBoard draw terms = take 12 terms ++ "FREE SPACE"%string :: drop 12 terms
  ∧ length (newBoard draw terms) = S (length terms).
Proof.
  intros Hlen. unfold newBoard.
  rewrite (bool_decide_eq_false_2 (24 ≤ length terms)%nat) by lia.
  case_bool_decide as H12.
  - split; [reflexivity|].
    rewrite length_app, length_take, length_cons, length_drop. lia.
  - rewrite take_ge, drop_ge by lia. split; [reflexivity|].
    rewrite length_app, length_cons. simpl. lia.
Qed.

Lemma newBoard_small_pool_is_not_shuffled_witness :
  newBoard (λ i, i `div` 2)%nat (take 14 sampleTerms)
  = take 12 (take 14 sampleTerms) ++ "FREE SPACE"%string :: drop 12 (take 14 sampleTerms)
  ∧ length (newBoard (λ i, i `div` 2)%nat (take 14 sampleTerms))
    = S (length (take 14 sampleTerms)).
Proof.
  apply (newBoard_small_pool_is_not_shuffled (λ i, i `div` 2)%nat (take 14 sampleTerms)).
  vm_compute. lia.
Defined.

Lemma fisherYates_ext (d1 d2 : nat → nat) (i : nat) (a : list string) :
  (∀ k, (1 ≤ k ≤ i)%nat → d1 k = d2 k) → fisherYates d1 i a = fisherYates d2 i a.
Proof.
  revert a. induction i as [|i IH]; intros a H; [reflexivity|]. simpl.
  rewrite (H (S i)) by lia. apply IH. intros k Hk. apply H. lia.
Qed.

Lemma swap_eq (a : list string) (i j : nat) (ai aj : string) :
  a !! i = Some ai → a !! j = Some aj → swap a i j = <[j := ai]> (<[i := aj]> a).
Proof. intros Hi Hj. unfold swap. by rewrite Hi, Hj. Qed.

Lemma swap_take (a : list string) (n i j : nat) :
  (i < n)%nat → (j < n)%nat → take n (swap a i j) = swap (take n a) i j.
Proof.
  intros Hi Hj. unfold swap. rewrite !lookup_take_lt by assumption.
  destruct (a !! i) as [ai|]; [|reflexivity].
  destruct (a !! j) as [aj|]; [|reflexivity].
  by rewrite !take_insert_lt.
Qed.

(** The shuffle can reach every arrangement: what is needed at the positions
    above [i] is already there, and the positions up to [i] hold the right
    elements in some order. *)
Lemma fisherYates_reaches (i : nat) (a p : list string) :
  (i < length a)%nat → length p = length a →
  take (S i) a ≡ₚ take (S i) p → drop (S i) a = drop (S i) p →
  ∃ draw, (∀ k, (draw k ≤ k)%nat) ∧ fisherYates draw i a = p.
Proof.
  revert a. induction i as [|i IH]; intros a Hi Hlen Hperm Hdrop.
  - exists (λ _, 0%nat). split; [intros; lia|]. simpl.
    destruct a as [|x a]; [simpl in Hi; lia|].
    destruct p as [|y p]; [discriminate|].
    simpl in Hperm, Hdrop. rewrite !take_0 in Hperm. rewrite !drop_0 in Hdrop.
    apply Permutation_singleton_inj in Hperm. by subst.
  - destruct (lookup_lt_is_Some_2 p (S i) ltac:(lia)) as [x Hx].
    destruct (lookup_lt_is_Some_2 a (S i) Hi) as [ai Hai].
    assert (x ∈ take (S (S i)) a) as Hin.
    { rewrite Hperm. apply elem_of_take. exists (S i). split; [assumption|lia]. }
    apply elem_of_take in Hin as (j & Hj & Hjlt).
    set (a' := swap a (S i) j).
    assert (a' = <[j := ai]> (<[S i := x]> a)) as Ha' by (by apply swap_eq).
    assert (length a' = length a) as Hlen' by (by rewrite Ha', !length_insert).
    assert (a' !! S i = Some x) as Hx'.
    { rewrite Ha'. destruct (decide (j = S i)) as [->|Hne].
      - rewrite list_lookup_insert_eq by (rewrite length_insert; lia). congruence.
      - rewrite list_lookup_insert_ne by assumption.
        by rewrite list_lookup_insert_eq by lia. }
    assert (drop (S (S i)) a' = drop (S (S i)) p) as Hdrop'.
    { rewrite Ha', !drop_insert_lt by lia. exact Hdrop. }
    assert (take (S i) a' ≡ₚ take (S i) p) as Hperm'.
    { apply (Permutation_app_inv_r [x]).
      rewrite <- (take_S_r a' (S i) x Hx'), <- (take_S_r p (S i) x Hx).
      unfold a'. rewrite swap_take by lia. by rewrite swap_Permutation. }
    destruct (IH a' ltac:(lia) ltac:(lia) Hperm') as (draw' & Hrange & Hfy).
    { rewrite (drop_S a' x (S i) Hx'), (drop_S p x (S i) Hx). by rewrite Hdrop'. }
    exists (λ k, if decide (k = S i) then j else draw' k). split.
    + intros k. case_decide; [lia|apply Hrange].
    + simpl. rewrite decide_True by reflexivity. fold a'. rewrite <- Hfy.
      apply fisherYates_ext. intros k Hk. by rewrite decide_False by lia.
Qed.

(** X17. The shuffle can produce every arrangement of the pool: for each
    permutation of the terms there are random draws, each within its range
    [0..i], for which the Fisher-Yates loop ends with that permutation; and
    with at least 24 terms the board is then the first 24 of them around
    "FREE SPACE". *)
Theorem fisherYates_reaches_every_permutation (terms p : list string) :
  p ≡ₚ terms →
  ∃ draw, (∀ k, (draw k ≤ k)%nat)
    ∧ fisherYates draw (length terms - 1) terms = p
    ∧ ((24 ≤ length terms)%nat →
       newBoard draw terms
       = take 12 p ++ "FREE SPACE"%string :: drop 12 (take 24 p)).
Proof.
  intros Hperm.
  assert (∃ draw, (∀ k, (draw k ≤ k)%nat)
                  ∧ fisherYates draw (length terms - 1) terms = p)
    as (draw & Hrange & Hfy).
  { destruct terms as [|t terms].
    - apply Permutation_nil_r in Hperm as ->. exists (λ _, 0%nat). by split; [lia|].
    - apply fisherYates_reaches.
      + simpl. lia.
      + by apply Permutation_length.
      + rewrite !take_ge by (rewrite ?(Permutation_length Hperm); simpl; lia). done.
      + rewrite !drop_ge by (rewrite ?(Permutation_length Hperm); simpl; lia). done. }
  exists draw. split; [exact Hrange|]. split; [exact Hfy|].
  intros Hlen. unfold newBoard. rewrite (bool_decide_eq_true_2 _ Hlen), Hfy.
  rewrite bool_decide_eq_true_2
    by (rewrite length_take, (Permutation_length Hperm); lia).
  by rewrite take_take.
Qed.

Lemma fisherYates_reaches_every_permutation_witness :
  ∃ draw, (∀ k, (draw k ≤ k)%nat)
    ∧ fisherYates draw (length sampleTerms - 1) sampleTerms = reverse sampleTerms
    ∧ ((24 ≤ length sampleTerms)%nat →
       newBoard draw sampleTerms
       = take 12 (reverse sampleTerms)
         ++ "FREE SPACE"%string :: drop 12 (take 24 (reverse sampleTerms))).
Proof.
  apply (fisherYates_reaches_every_permutation sampleTerms (reverse sampleTerms)).
  apply reverse_Permutation.
Defined.

(** ** The client's copy of the state *)

Lemma clientOnGameOver_lookup (fl : list string) (view : gmap string PublicEntry)
    (c : ClientState) (k : string) :
  c_gameState (clientOnGameOver fl view c) !! k
  = (λ e, match view !! k with
          | Some pe => mkClientEntry (ce_board e) (ce_selectedIndices e) (ce_bingoCount e)
                                     (Some (pub_prediction pe))
          | None => e
          end) <$> c_gameState c !! k.
Proof.
  unfold clientOnGameOver. simpl. revert k.
  apply (map_fold_weak_ind
           (λ (r : gmap string ClientEntry) (view : gmap string PublicEntry),
              ∀ k, r !! k
                   = (λ e, match view !! k with
                           | Some pe => mkClientEntry (ce_board e) (ce_selectedIndices e)
                                          (ce_bingoCount e) (Some (pub_prediction pe))
                           | None => e
                           end) <$> c_gameState c !! k)).
  - intros k. rewrite lookup_empty. by destruct (c_gameState c !! k).
  - intros i pe m r Hi IH k. destruct (decide (k = i)) as [->|Hne].
    + rewrite lookup_insert_eq. specialize (IH i). rewrite Hi in IH.
      destruct (c_gameState c !! i) as [e|]; simpl in IH |- *; rewrite IH.
      * by rewrite lookup_insert_eq.
      * exact IH.
    + rewrite (lookup_insert_ne m) by done. rewrite <- IH.
      destruct (r !! i); [by rewrite lookup_insert_ne|reflexivity].
Qed.

Lemma pub_prediction_publicEntry (fl : list string) (v : option string) (m : string)
    (st st' : BoardState) :
  prediction st = prediction st' →
  pub_prediction (publicEntry fl v m st) = pub_prediction (publicEntry fl v m st').
Proof. intros H. unfold publicEntry. simpl. by rewrite H. Qed.

Lemma inSync_lookup (c : ClientState) (srv : Server) (m : string) (st : BoardState) :
  inSync c srv → gameState srv !! m = Some st →
  c_gameState c !! m
  = Some (ofPublicEntry (publicEntry (finalLineup srv) (c_currentUser c) m st)).
Proof.
  intros (_ & _ & _ & ->) Hm. by rewrite lookup_fmap, getPublicState_lookup, Hm.
Qed.

Lemma inSync_insert (c : ClientState) (srv : Server) (m : string) (st' : BoardState)
    (e : ClientEntry) :
  inSync c srv →
  e = ofPublicEntry (publicEntry (finalLineup srv) (c_currentUser c) m st') →
  inSync (mkClientState (c_members c) (c_groups c) (<[m := e]> (c_gameState c))
                        (c_finalLineup c) (c_currentUser c))
         (setGameState srv (<[m := st']> (gameState srv))).
Proof.
  intros (Hm & Hg & Hf & Hgs) ->. repeat split; try assumption. simpl.
  by rewrite getPublicState_insert, fmap_insert, Hgs.
Qed.

Lemma deliverBroadcasts_toggle (m : string) (index : Z) (srv : Server) (c : ClientState) :
  deliverBroadcasts (onToggleCell m index srv).2 c
  = match gameState srv !! m with
    | Some st =>
        (clientOnUpdateState m (toggleIndex (selectedIndices st) index)
           (Some (calculateBingoCount (toggleIndex (selectedIndices st) index))) c,
         false)
    | None => (c, false)
    end.
Proof.
  unfold onToggleCell. destruct (gameState srv !! m) as [st|]; [|reflexivity].
  unfold deliverBroadcasts. simpl. by case_bool_decide.
Qed.

Lemma handle_keeps_inSync (c : ClientState) (srv : Server) (ev : ClientEvent) :
  inSync c srv → broadcastSuffices (c_currentUser c) srv ev →
  inSync (deliverBroadcasts (handle ev srv).2 c).1 (handle ev srv).1
  ∧ (deliverBroadcasts (handle ev srv).2 c).2 = false
  ∧ c_currentUser (deliverBroadcasts (handle ev srv).2 c).1 = c_currentUser c.
Proof.
  intros Hs Hev. destruct ev as [|name|m picks|lineup|m index|].
  - by simpl.
  - by simpl.
  - simpl in Hev |- *. unfold onSubmitPrediction in *.
    destruct (gameState srv !! m) as [st|] eqn:Hm; [|done].
    destruct (prediction st) as [p|] eqn:Hp; simpl in *; [done|].
    destruct (bool_decide (length picks = 12%nat)) eqn:Hlen; [|done].
    destruct Hev as [Hev|[Hfl Hv]]; [discriminate|].
    unfold deliverBroadcasts. simpl. unfold clientOnPredictionUpdate.
    rewrite (inSync_lookup c srv m st Hs Hm). simpl.
    rewrite (bool_decide_eq_false_2 (Some m = c_currentUser c)) by congruence.
    split; [|done]. apply inSync_insert; [assumption|].
    rewrite Hfl. rewrite !publicEntry_masked by assumption. simpl.
    reflexivity.
  - simpl. unfold onSubmitFinalLineup. destruct lineup as [l|]; [|done].
    case_bool_decide as Hl; [|done]. unfold deliverBroadcasts. simpl.
    split; [|done]. destruct Hs as (Hm & Hg & Hf & Hgs).
    repeat split; try assumption. apply map_eq. intros k.
    rewrite clientOnGameOver_lookup, Hgs, !lookup_fmap, !getPublicState_lookup. simpl.
    destruct (gameState srv !! k) as [st|]; [|reflexivity].
    cbn -[publicEntry]. f_equal.
    assert (l ≠ []) as Hne by (intros ->; simpl in Hl; lia).
    rewrite !(publicEntry_revealed l) by assumption.
    unfold ofPublicEntry, publicEntry. reflexivity.
  - cbn [handle]. rewrite deliverBroadcasts_toggle. unfold onToggleCell.
    destruct (gameState srv !! m) as [st|] eqn:Hm; [|done].
    simpl. unfold clientOnUpdateState.
    rewrite (inSync_lookup c srv m st Hs Hm). simpl.
    split; [|done]. apply inSync_insert; [assumption|].
    unfold ofPublicEntry. simpl. reflexivity.
  - by simpl.
Qed.

Lemma deliverBroadcasts_from (out : list Effect) (c : ClientState) (b : bool) :
  foldl (λ acc e, match e with
                  | IoEmit msg => let r := deliver msg acc.1 in (r.1, acc.2 || r.2)
                  | _ => acc
                  end) (c, b) out
  = ((deliverBroadcasts out c).1, b || (deliverBroadcasts out c).2).
Proof.
  unfold deliverBroadcasts. revert c b.
  induction out as [|e out IH]; intros c b; simpl.
  - by rewrite orb_false_r.
  - destruct e as [gs|l|msg|msg]; try apply IH. simpl.
    rewrite (IH (deliver msg c).1 (b || (deliver msg c).2)).
    rewrite (IH (deliver msg c).1 (deliver msg c).2). simpl.
    by rewrite orb_assoc.
Qed.

Lemma deliverBroadcasts_app (out1 out2 : list Effect) (c : ClientState) :
  deliverBroadcasts (out1 ++ out2) c
  = ((deliverBroadcasts out2 (deliverBroadcasts out1 c).1).1,
     (deliverBroadcasts out1 c).2 || (deliverBroadcasts out2 (deliverBroadcasts out1 c).1).2).
Proof.
  unfold deliverBroadcasts at 1. rewrite foldl_app.
  fold (deliverBroadcasts out1 c).
  destruct (deliverBroadcasts out1 c) as [c1 b1]. apply deliverBroadcasts_from.
Qed.

(** X18. The broadcasts keep a client up to date: a client that holds the
    server's view for its user still holds it after the server has handled any
    sequence of events and the client has received the broadcasts, and it was
    never made to reload, provided no prediction of that user itself was
    accepted and none was accepted after the reveal. *)
Theorem broadcasts_keep_client_in_sync (evs : list ClientEvent) (c : ClientState)
    (srv : Server) :
  inSync c srv →
  Forall namesServed evs →
  broadcastsSuffice (c_currentUser c) srv evs →
  inSync (deliverBroadcasts (run evs srv).2 c).1 (run evs srv).1
  ∧ (deliverBroadcasts (run evs srv).2 c).2 = false.
Proof.
  intros Hs _. revert Hs.
  revert c srv. induction evs as [|ev evs IH]; intros c srv Hs Hevs; [done|].
  destruct Hevs as [Hev Hevs].
  rewrite run_cons, run_cons_out, deliverBroadcasts_app. simpl.
  destruct (handle_keeps_inSync c srv ev Hs Hev) as (Hs' & -> & Hu).
  rewrite <- Hu in Hevs. destruct (IH _ _ Hs' Hevs) as [Hs'' ->]. done.
Qed.

Lemma broadcasts_keep_client_in_sync_witness :
  inSync (deliverBroadcasts (run hiddenEvents predictedServer).2
            (clientAfterInit (Some "carol"%string) predictedServer)).1
         (run hiddenEvents predictedServer).1
  ∧ (deliverBroadcasts (run hiddenEvents predictedServer).2
       (clientAfterInit (Some "carol"%string) predictedServer)).2 = false.
Proof.
  apply (broadcasts_keep_client_in_sync hiddenEvents
           (clientAfterInit (Some "carol"%string) predictedServer) predictedServer).
  - repeat split.
  - unfold hiddenEvents.
    repeat (apply Forall_cons_2 || apply Forall_nil_2); simpl;
      first [exact I | apply (bool_decide_unpack _); vm_compute; exact I].
  - simpl. repeat split; (right; split; [reflexivity|discriminate]).
Defined.

(** X19. A member's own accepted prediction makes its client reload: the
    broadcast carries only the flag, so before the reveal the client's copy is
    left without the picks, while the answer to a new join holds them. *)
Theorem own_prediction_makes_client_reload (c : ClientState) (srv : Server) (m : string)
    (st : BoardState) (picks : list string) :
  inSync c srv → c_currentUser c = Some m → finalLineup srv = [] →
  gameState srv !! m = Some st → prediction st = None → length picks = 12%nat →
  (deliverBroadcasts (onSubmitPrediction m picks srv).2 c).2 = true
  ∧ ce_prediction
      <$> c_gameState (deliverBroadcasts (onSubmitPrediction m picks srv).2 c).1 !! m
    = Some (Some (mkPredictionData true None None))
  ∧ pub_prediction <$> getPublicState (onSubmitPrediction m picks srv).1 (Some m) !! m
    = Some (mkPredictionData true (Some (Some picks)) None).
Proof.
  intros Hs Hu Hfl Hm Hp Hlen.
  rewrite (onSubmitPrediction_accepted srv m st picks Hm Hp Hlen).
  unfold deliverBroadcasts. simpl. unfold clientOnPredictionUpdate.
  rewrite (inSync_lookup c srv m st Hs Hm), Hu, Hfl. cbn -[publicEntry].
  rewrite bool_decide_eq_true_2 by reflexivity. split; [reflexivity|].
  rewrite lookup_insert_eq, publicEntry_own, Hp. split; [reflexivity|].
  rewrite getPublicState_lookup. cbn -[publicEntry].
  rewrite lookup_insert_eq, Hfl. cbn -[publicEntry]. by rewrite publicEntry_own.
Qed.

Lemma own_prediction_makes_client_reload_witness :
  (deliverBroadcasts (onSubmitPrediction "alice" samplePicks sampleServer).2
     (clientAfterInit (Some "alice"%string) sampleServer)).2 = true
  ∧ ce_prediction
      <$> c_gameState
            (deliverBroadcasts (onSubmitPrediction "alice" samplePicks sampleServer).2
               (clientAfterInit (Some "alice"%string) sampleServer)).1 !! "alice"%string
    = Some (Some (mkPredictionData true None None))
  ∧ pub_prediction
      <$> getPublicState (onSubmitPrediction "alice" samplePicks sampleServer).1
            (Some "alice"%string) !! "alice"%string
    = Some (mkPredictionData true (Some (Some samplePicks)) None).
Proof.
  apply (own_prediction_makes_client_reload
           (clientAfterInit (Some "alice"%string) sampleServer) sampleServer "alice"
           aliceState samplePicks); try reflexivity.
  repeat split.
Defined.

(** ** The leaderboard *)








Example leaderboard_sample :
  leaderboard (clientAfterInit None predictedRevealed)
  = Some [("alice"%string, 10%nat); ("bob"%string, 0%nat)].
Proof. vm_compute. reflexivity. Qed.

(** ** Reading the list files *)

Section LoadFileFacts.

Context {char : Type} `{EqDecision char}.
Variable newline : char.
Variable isSpace : char → bool.

Lemma trimStart_startsClean (l : list char) : startsClean isSpace (trimStart isSpace l).
Proof.
  induction l as [|c l IH]; simpl; [exact I|].
  destruct (isSpace c) eqn:Hc; [exact IH|exact Hc].
Qed.


Lemma elem_of_trimStart (l : list char) (x : char) : x ∈ trimStart isSpace l → x ∈ l.
Proof.
  induction l as [|c l IH]; simpl; [done|].
  destruct (isSpace c); [|done]. intros Hx. apply elem_of_cons. right. by apply IH.
Qed.

Lemma trimStart_snoc (r : list char) (c : char) :
  isSpace c = false → ∃ r', trimStart isSpace (r ++ [c]) = r' ++ [c].
Proof.
  intros Hc. induction r as [|x r IH]; simpl.
  - rewrite Hc. by exists [].
  - destruct (isSpace x); [exact IH|]. by exists (x :: r).
Qed.

Lemma trimEnd_startsClean (l : list char) :
  startsClean isSpace l → startsClean isSpace (trimEnd isSpace l).
Proof.
  destruct l as [|c l]; [done|]. simpl. intros Hc. unfold trimEnd.
  rewrite reverse_cons. destruct (trimStart_snoc (reverse l) c Hc) as [r' ->].
  rewrite reverse_app. simpl. exact Hc.
Qed.

Lemma elem_of_trim (l : list char) (x : char) : x ∈ trim isSpace l → x ∈ l.
Proof.
  unfold trim, trimEnd. intros Hx.
  rewrite elem_of_reverse in Hx. apply elem_of_trimStart in Hx.
  rewrite elem_of_reverse in Hx. by apply elem_of_trimStart in Hx.
Qed.


Lemma splitLines_no_newline (content line : list char) :
  line ∈ splitLines newline content → newline ∉ line.
Proof.
  revert line. induction content as [|c rest IH]; intros line; simpl.
  - intros ->%list_elem_of_singleton. apply not_elem_of_nil.
  - destruct (decide (c = newline)) as [->|Hne].
    + intros [->|Hin]%elem_of_cons; [apply not_elem_of_nil|by apply IH].
    + destruct (splitLines newline rest) as [|l ls] eqn:Hsp.
      * intros ->%list_elem_of_singleton. set_solver.
      * intros [->|Hin]%elem_of_cons.
        -- apply not_elem_of_cons. split; [congruence|]. apply IH. set_solver.
        -- apply IH. set_solver.
Qed.




Lemma loadFile_entries_clean (read : option (list char)) (line : list char) :
  line ∈ loadFile newline isSpace read → cleanLine newline isSpace line.
Proof.
  destruct read as [content|]; simpl; [|by intros ?%elem_of_nil].
  intros [Hlen Hin]%list_elem_of_filter.
  apply list_elem_of_fmap in Hin as (l0 & -> & Hl0).
  split; [|split; [|split]].
  - intros Heq. rewrite Heq in Hlen. simpl in Hlen. lia.
  - intros Hnl. apply elem_of_trim in Hnl. by apply (splitLines_no_newline content l0).
  - apply trimEnd_startsClean, trimStart_startsClean.
  - unfold trim, trimEnd. rewrite reverse_involutive. apply trimStart_startsClean.
Qed.


(** X21. What [loadFile] returns holds only clean lines: none is empty, none
    holds a line feed, and none begins or ends with a character that [trim()]
    strips; and a file that cannot be read gives the empty list. *)
Theorem loadFile_returns_clean_lines (read : option (list char)) :
  Forall (cleanLine newline isSpace) (loadFile newline isSpace read)
  ∧ loadFile newline isSpace None = [].
Proof.
  split; [|reflexivity]. apply Forall_forall. apply loadFile_entries_clean.
Qed.


End LoadFileFacts.

Example loadFile_sample :
  loadFile 10%nat asciiSpace (Some sampleContent)
  = [[114; 111; 99; 107]; [106; 97; 122; 122]]%nat.
Proof. vm_compute. reflexivity. Qed.

